(** * Rule 142 detector (obsolete WS_UPLOAD / WS_DOWNLOAD calls)

    A shallow embedding of [app/app.py]: the two regular expressions
    [STMT_RE] and [FN_NAME_RE], the helper [get_line_snippet], the scanner
    [scan_unit] and the batch endpoint [scan_rule_array], followed by the
    properties the specification states about them.

    Text is a list of 8-bit characters, read as the code points 0..255 of a
    Python [str]; on that range the character classes of the [re] module
    ([\s], [\w], case-insensitive letters) are the finite tables below.
    Offsets are [nat]; the sentinel [-1] of [str.find] / [str.rfind] is
    [None].  Line numbers are Python integers, hence [Z]. *)

From Stdlib Require Import String Ascii List ZArith Lia Bool Arith Sorted.
Import ListNotations.

Definition text := list ascii.

(** A string literal of the source. *)
Definition T (s : string) : text := list_ascii_of_string s.

Definition nl : ascii := ascii_of_nat 10.
Definition dot : ascii := ascii_of_nat 46.
Definition squote : ascii := ascii_of_nat 39.
Definition dquote : ascii := ascii_of_nat 34.
Definition backslash : ascii := ascii_of_nat 92.

(** ** Python string primitives used by the source *)

Module Py.

(** [t[a:b]] for [0 <= a], [0 <= b]. *)
Definition slice (a b : nat) (t : text) : text := firstn (b - a) (skipn a t).

(** [t.count("\n")] *)
Fixpoint count_nl (t : text) : nat :=
  match t with
  | [] => 0
  | c :: t' => if Ascii.eqb c nl then S (count_nl t') else count_nl t'
  end.

(** Index of the first newline of [t], counted from [i]. *)
Fixpoint index_nl (t : text) (i : nat) : option nat :=
  match t with
  | [] => None
  | c :: t' => if Ascii.eqb c nl then Some i else index_nl t' (S i)
  end.

(** [t.find("\n", from)]: first newline at an offset [>= from]. *)
Definition find_nl (t : text) (from : nat) : option nat :=
  index_nl (skipn from t) from.

(** Index of the last newline of [t], counted from [i]. *)
Fixpoint rindex_nl (t : text) (i : nat) : option nat :=
  match t with
  | [] => None
  | c :: t' =>
      match rindex_nl t' (S i) with
      | Some j => Some j
      | None => if Ascii.eqb c nl then Some i else None
      end
  end.

(** [t.rfind("\n", 0, stop)]: last newline at an offset [< stop]. *)
Definition rfind_nl (t : text) (stop : nat) : option nat :=
  rindex_nl (firstn stop t) 0.

(** [t.replace("\n", "\\n")] *)
Definition escape_nl (t : text) : text :=
  flat_map (fun c => if Ascii.eqb c nl then [backslash; "n"%char] else [c]) t.

Definition in_range (lo hi : nat) (c : ascii) : bool :=
  (lo <=? nat_of_ascii c) && (nat_of_ascii c <=? hi).

Definition is_upper (c : ascii) : bool := in_range 65 90 c.
Definition is_lower (c : ascii) : bool := in_range 97 122 c.
Definition is_digit (c : ascii) : bool := in_range 48 57 c.

Definition to_upper (c : ascii) : ascii :=
  if is_lower c then ascii_of_nat (nat_of_ascii c - 32) else c.
Definition to_lower (c : ascii) : ascii :=
  if is_upper c then ascii_of_nat (nat_of_ascii c + 32) else c.

(** [s.upper()], on the characters a captured name can hold
    (letters, digits, underscore). *)
Definition upper (t : text) : text := map to_upper t.

Fixpoint text_eqb (a b : text) : bool :=
  match a, b with
  | [], [] => true
  | x :: a', y :: b' => Ascii.eqb x y && text_eqb a' b'
  | _, _ => false
  end.

Fixpoint startswith (p t : text) : bool :=
  match p, t with
  | [], _ => true
  | x :: p', y :: t' => Ascii.eqb x y && startswith p' t'
  | _ :: _, [] => false
  end.

(** [p in t] for strings: [p] occurs as a substring of [t]. *)
Fixpoint contains (p t : text) : bool :=
  startswith p t ||
  match t with
  | [] => false
  | _ :: t' => contains p t'
  end.

(** [x in S] for a set of strings. *)
Definition mem (x : text) (names : list text) : bool :=
  existsb (text_eqb x) names.

End Py.

(** ** The fragment of [re] the two patterns use *)

Module Re.

(** [\s] on code points 0..255. *)
Definition is_space (c : ascii) : bool :=
  Py.in_range 9 13 c || Py.in_range 28 32 c
  || (nat_of_ascii c =? 133) || (nat_of_ascii c =? 160).

(** [\w] on code points 0..255: alphanumeric or underscore. *)
Definition is_word (c : ascii) : bool :=
  Py.is_digit c || Py.is_upper c || Py.is_lower c || (nat_of_ascii c =? 95)
  || (nat_of_ascii c =? 170) || (nat_of_ascii c =? 178)
  || (nat_of_ascii c =? 179) || (nat_of_ascii c =? 181)
  || (nat_of_ascii c =? 185) || (nat_of_ascii c =? 186)
  || Py.in_range 188 190 c || Py.in_range 192 214 c
  || Py.in_range 216 246 c || Py.in_range 248 255 c.

(** Patterns.  Repetition is only ever applied to a character class. *)
Inductive regex : Type :=
| Empty                              (* the empty alternative *)
| Lit (c : ascii)                    (* a literal, compared ignoring case *)
| Class (p : ascii -> bool)          (* a character class *)
| WordB                              (* \b *)
| Cat (r1 r2 : regex)
| Alt (r1 r2 : regex)
| Star (p : ascii -> bool)           (* greedy class* *)
| Group (r : regex).                 (* the one named group *)

Definition Plus (p : ascii -> bool) : regex := Cat (Class p) (Star p).

Fixpoint Lits (l : text) : regex :=
  match l with
  | [] => Empty
  | c :: l' => Cat (Lit c) (Lits l')
  end.

(** Where the matcher stands: the character before the position, the text
    from the position on, the position, and the span of the group. *)
Record cursor : Type := {
  prev : option ascii;
  rest : text;
  pos : nat;
  grp : option (nat * nat)
}.

Definition step (c : ascii) (t : text) (st : cursor) : cursor :=
  {| prev := Some c; rest := t; pos := S (pos st); grp := grp st |}.

Definition set_grp (a b : nat) (st : cursor) : cursor :=
  {| prev := prev st; rest := rest st; pos := pos st; grp := Some (a, b) |}.

Definition word_opt (o : option ascii) : bool :=
  match o with
  | Some c => is_word c
  | None => false
  end.

Definition at_boundary (st : cursor) : bool :=
  xorb (word_opt (prev st)) (word_opt (hd_error (rest st))).

(** Greedy repetition with backtracking: try the longest run first. *)
Fixpoint star (p : ascii -> bool) (t : text) (st : cursor)
         (k : cursor -> option cursor) {struct t} : option cursor :=
  match t with
  | c :: t' =>
      if p c then
        match star p t' (step c t' st) k with
        | Some r => Some r
        | None => k st
        end
      else k st
  | [] => k st
  end.

(** Backtracking matcher in continuation style: [run r st k] is the first
    success, in the priority order of [re], of [r] from [st] followed by
    [k]. *)
Fixpoint run (r : regex) (st : cursor) (k : cursor -> option cursor)
  : option cursor :=
  match r with
  | Empty => k st
  | Lit c =>
      match rest st with
      | x :: t =>
          if Ascii.eqb (Py.to_lower x) (Py.to_lower c) then k (step x t st)
          else None
      | [] => None
      end
  | Class p =>
      match rest st with
      | x :: t => if p x then k (step x t st) else None
      | [] => None
      end
  | WordB => if at_boundary st then k st else None
  | Cat r1 r2 => run r1 st (fun st' => run r2 st' k)
  | Alt r1 r2 =>
      match run r1 st k with
      | Some res => Some res
      | None => run r2 st k
      end
  | Star p => star p (rest st) st k
  | Group r1 =>
      run r1 st (fun st' => k (set_grp (pos st) (pos st') st'))
  end.

(** A match object: [m.start()], [m.end()] and the span of the group. *)
Record span : Type := {
  m_start : nat;
  m_end : nat;
  m_group : option (nat * nat)
}.

(** One attempt of the pattern at a position. *)
Definition match_at (r : regex) (p : option ascii) (t : text) (i : nat)
  : option span :=
  match run r {| prev := p; rest := t; pos := i; grp := None |} Some with
  | Some res => Some {| m_start := i; m_end := pos res; m_group := grp res |}
  | None => None
  end.

(** [pattern.finditer(text)]: leftmost matches, not overlapping; after a
    match the scan resumes at its end ([skip] counts the characters still
    inside the last match). *)
Fixpoint finditer_from (r : regex) (skip : nat) (p : option ascii)
         (t : text) (i : nat) {struct t} : list span :=
  match t with
  | [] =>
      match skip with
      | O =>
          match match_at r p [] i with
          | Some m => [m]
          | None => []
          end
      | S _ => []
      end
  | c :: t' =>
      match skip with
      | S n => finditer_from r n (Some c) t' (S i)
      | O =>
          match match_at r p t i with
          | Some m => m :: finditer_from r (m_end m - S i) (Some c) t' (S i)
          | None => finditer_from r 0 (Some c) t' (S i)
          end
      end
  end.

Definition finditer (r : regex) (t : text) : list span :=
  finditer_from r 0 None t 0.

(** [pattern.search(text)]: the leftmost match, if any. *)
Fixpoint search_from (r : regex) (p : option ascii) (t : text) (i : nat)
         {struct t} : option span :=
  match match_at r p t i with
  | Some m => Some m
  | None =>
      match t with
      | [] => None
      | c :: t' => search_from r (Some c) t' (S i)
      end
  end.

Definition search (r : regex) (t : text) : option span :=
  search_from r None t 0.

End Re.

Import Re.

(** ** The two patterns *)

Definition not_dot (c : ascii) : bool := negb (Ascii.eqb c dot).

(** [[A-Z0-9_]] under [(?i)]. *)
Definition name_char (c : ascii) : bool :=
  Py.is_upper c || Py.is_lower c || Py.is_digit c || Ascii.eqb c "_"%char.

Definition keyword : regex :=
  Cat WordB (Cat (Lits (T "CALL")) (Cat (Plus is_space) (Lits (T "FUNCTION")))).

(** [(?is)\bCALL\s+FUNCTION\b[^.]*\.] *)
Definition STMT_RE : regex :=
  Cat keyword (Cat WordB (Cat (Star not_dot) (Lit dot))).

Definition opt_quote : regex := Alt (Lit squote) (Alt (Lit dquote) Empty).

(** [(?i)\bCALL\s+FUNCTION\s+(?:'|\"|)\s*(?P<fname>[A-Z0-9_]+)\s*(?:'|\"|)] *)
Definition FN_NAME_RE : regex :=
  Cat keyword
    (Cat (Plus is_space)
       (Cat opt_quote
          (Cat (Star is_space)
             (Cat (Group (Plus name_char))
                (Cat (Star is_space) opt_quote))))).

Definition OBSOLETE_FMS : list text :=
  [T "WS_UPLOAD"; T "WS_DOWNLOAD"; T "UPLOAD"; T "DOWNLOAD"].

(** ** Models *)

Record Finding : Type := {
  prog_name : text;
  incl_name : text;
  types : text;
  blockname : option text;
  starting_line : Z;
  ending_line : Z;
  issues_type : text;
  severity : text;
  message : text;
  suggestion : text;
  snippet : text
}.

Record Unit : Type := {
  pgm_name : text;
  inc_name : text;
  type : text;
  name : option text;
  start_line : option Z;
  end_line : option Z;
  code : option text;
  findings : option (list Finding)
}.

(** [x or d] for an optional string / integer. *)
Definition or_text (x : option text) (d : text) : text :=
  match x with
  | Some (c :: t) => c :: t
  | _ => d
  end.

Definition or_int (x : option Z) (d : Z) : Z :=
  match x with
  | Some 0%Z | None => d
  | Some n => n
  end.

(** ** Helpers *)

Definition get_line_snippet (text0 : text) (start end_ : nat) : text :=
  let line_start :=
    match Py.rfind_nl text0 start with
    | None => 0
    | Some i => i + 1
    end in
  let line_end :=
    match Py.find_nl text0 end_ with
    | None => length text0
    | Some j => j
    end in
  Py.slice line_start line_end text0.

Definition line (s : string) : text := T s ++ [nl].

Definition upload_suggestion : text :=
  line "Replace with Unicode-compliant APIs:"
  ++ line "  CALL FUNCTION 'GUI_UPLOAD'"
  ++ line "    EXPORTING"
  ++ line "      filename = <path>"
  ++ line "      filetype = 'ASC'"
  ++ line "      encoding = 'UTF-8'"
  ++ line "    TABLES"
  ++ line "      data_tab = <itab>."
  ++ T "Or use CL_GUI_FRONTEND_SERVICES=>GUI_UPLOAD for OO style.".

Definition download_suggestion : text :=
  line "Replace with Unicode-compliant APIs:"
  ++ line "  CALL FUNCTION 'GUI_DOWNLOAD'"
  ++ line "    EXPORTING"
  ++ line "      filename = <path>"
  ++ line "      filetype = 'ASC'"
  ++ line "      encoding = 'UTF-8'"
  ++ line "    TABLES"
  ++ line "      data_tab = <itab>."
  ++ T "Or use CL_GUI_FRONTEND_SERVICES=>GUI_DOWNLOAD for OO style.".

(** ** Detection *)

(** What a run of Python code ends in. *)
Inductive exn : Type := AttributeError.

Inductive outcome (A : Type) : Type :=
| Returned (a : A)
| Raised (e : exn).

Arguments Returned {A} a.
Arguments Raised {A} e.

(** [name_match.group("fname").upper()]: a group that did not take part in
    the match is [None], which has no [upper]. *)
Definition group_upper (stmt : text) (name_match : span) : outcome text :=
  match m_group name_match with
  | Some (a, b) => Returned (Py.upper (Py.slice a b stmt))
  | None => Raised AttributeError
  end.

Definition make_message (fm : text) : text :=
  T "Obsolete function module '" ++ fm ++ T "' detected (non-Unicode).".

(** The finding built in the body of the loop of [scan_unit] for the match
    [stmt_start, stmt_end) whose name is [fm]. *)
Definition make_finding (unit : Unit) (src : text) (base_start : Z)
           (stmt_start stmt_end : nat) (fm : text) : Finding :=
  let suggestion0 :=
    if Py.contains (T "UPLOAD") fm then upload_suggestion
    else download_suggestion in
  let line_in_block := Py.count_nl (Py.slice 0 stmt_start src) + 1 in
  let snippet_line := get_line_snippet src stmt_start stmt_end in
  let snippet_line_count := Py.count_nl snippet_line + 1 in
  let starting_line_abs := (base_start + Z.of_nat line_in_block)%Z in
  let ending_line_abs :=
    (base_start + Z.of_nat line_in_block + Z.of_nat snippet_line_count)%Z in
  {| prog_name := pgm_name unit;
     incl_name := inc_name unit;
     types := type unit;
     blockname := name unit;
     starting_line := starting_line_abs;
     ending_line := ending_line_abs;
     issues_type := T "ObsoleteUploadDownload";
     severity := T "error";
     message := make_message fm;
     suggestion := suggestion0;
     snippet := Py.escape_nl snippet_line |}.

(** One iteration of the loop: [None] is [continue] or a name off the list. *)
Definition scan_match (unit : Unit) (src : text) (base_start : Z) (m : span)
  : outcome (option Finding) :=
  let stmt_start := m_start m in
  let stmt_end := m_end m in
  let stmt := Py.slice stmt_start stmt_end src in
  match search FN_NAME_RE stmt with
  | None => Returned None
  | Some name_match =>
      match group_upper stmt name_match with
      | Raised e => Raised e
      | Returned fm =>
          if Py.mem fm OBSOLETE_FMS then
            Returned (Some (make_finding unit src base_start
                                         stmt_start stmt_end fm))
          else Returned None
      end
  end.

(** [for m in STMT_RE.finditer(src): ... findings.append(finding)] *)
Fixpoint scan_loop (unit : Unit) (src : text) (base_start : Z)
         (ms : list span) (acc : list Finding) : outcome (list Finding) :=
  match ms with
  | [] => Returned acc
  | m :: ms' =>
      match scan_match unit src base_start m with
      | Raised e => Raised e
      | Returned None => scan_loop unit src base_start ms' acc
      | Returned (Some f) => scan_loop unit src base_start ms' (acc ++ [f])
      end
  end.

Definition scan_findings (unit : Unit) : outcome (list Finding) :=
  let src := or_text (code unit) [] in
  let base_start := or_int (start_line unit) 0 in
  scan_loop unit src base_start (finditer STMT_RE src) [].

(** The constructor applied to [unit.model_dump()]: a new object with the
    fields of [unit]. *)
Definition copy_unit (unit : Unit) : Unit :=
  {| pgm_name := pgm_name unit; inc_name := inc_name unit; type := type unit;
     name := name unit; start_line := start_line unit;
     end_line := end_line unit; code := code unit;
     findings := findings unit |}.

Definition set_findings (fs : list Finding) (unit : Unit) : Unit :=
  {| pgm_name := pgm_name unit; inc_name := inc_name unit; type := type unit;
     name := name unit; start_line := start_line unit;
     end_line := end_line unit; code := code unit;
     findings := Some fs |}.

Definition scan_unit (unit : Unit) : outcome Unit :=
  match scan_findings unit with
  | Raised e => Raised e
  | Returned fs => Returned (set_findings fs (copy_unit unit))
  end.


(** ** Declarative reading of the patterns *)

Module ReSpec.

(** The character before the position once [w] has been read. *)
Definition last_of (p : option ascii) (w : text) : option ascii :=
  fold_left (fun _ c => Some c) w p.

(** [reaches r st st']: some way of matching [r] leads from [st] to
    [st'], whatever the priorities. *)
Inductive reaches : regex -> cursor -> cursor -> Prop :=
| R_empty st : reaches Empty st st
| R_lit c st x t :
    rest st = x :: t ->
    Ascii.eqb (Py.to_lower x) (Py.to_lower c) = true ->
    reaches (Lit c) st (step x t st)
| R_class p st x t :
    rest st = x :: t -> p x = true -> reaches (Class p) st (step x t st)
| R_wordb st : at_boundary st = true -> reaches WordB st st
| R_cat r1 r2 st st1 st2 :
    reaches r1 st st1 -> reaches r2 st1 st2 -> reaches (Cat r1 r2) st st2
| R_alt_l r1 r2 st st' : reaches r1 st st' -> reaches (Alt r1 r2) st st'
| R_alt_r r1 r2 st st' : reaches r2 st st' -> reaches (Alt r1 r2) st st'
| R_star_stop p st : reaches (Star p) st st
| R_star_more p st x t st' :
    rest st = x :: t -> p x = true ->
    reaches (Star p) (step x t st) st' -> reaches (Star p) st st'
| R_group r st st' :
    reaches r st st' ->
    reaches (Group r) st (set_grp (pos st) (pos st') st').

Fixpoint has_group (r : regex) : bool :=
  match r with
  | Cat r1 r2 | Alt r1 r2 => has_group r1 || has_group r2
  | Group _ => true
  | _ => false
  end.

End ReSpec.

Import ReSpec.

(** The loop body without its effects: the upper-cased name the name
    pattern extracts from the statement of a match, if any ... *)
Definition called_name (src : text) (m : span) : option text :=
  let stmt := Py.slice (m_start m) (m_end m) src in
  match search FN_NAME_RE stmt with
  | None => None
  | Some name_match =>
      match m_group name_match with
      | None => None
      | Some (a, b) => Some (Py.upper (Py.slice a b stmt))
      end
  end.

(** ... and that name when the statement is flagged. *)
Definition detect (src : text) (m : span) : option text :=
  match called_name src m with
  | Some fm => if Py.mem fm OBSOLETE_FMS then Some fm else None
  | None => None
  end.

Definition hits_of (src : text) (ms : list span) : list (span * text) :=
  flat_map (fun m => match detect src m with
                     | Some fm => [(m, fm)]
                     | None => []
                     end) ms.

(** The flagged statements of a text, in the order the loop meets them. *)
Definition hits (src : text) : list (span * text) :=
  hits_of src (finditer STMT_RE src).

Definition src_of (unit : Unit) : text := or_text (code unit) [].
Definition base_of (unit : Unit) : Z := or_int (start_line unit) 0.

Definition finding_of (unit : Unit) (h : span * text) : Finding :=
  make_finding unit (src_of unit) (base_of unit)
               (m_start (fst h)) (m_end (fst h)) (snd h).

(** ** Endpoints *)

(** [if res.findings:] *)
Definition truthy (fs : option (list Finding)) : bool :=
  match fs with
  | Some (_ :: _) => true
  | _ => false
  end.

Fixpoint scan_rule_array_loop (units : list Unit) (results : list Unit)
  : outcome (list Unit) :=
  match units with
  | [] => Returned results
  | u :: units' =>
      match scan_unit u with
      | Raised e => Raised e
      | Returned res =>
          if truthy (findings res) then
            scan_rule_array_loop units' (results ++ [res])
          else scan_rule_array_loop units' results
      end
  end.

Definition scan_rule_array (units : list Unit) : outcome (list Unit) :=
  scan_rule_array_loop units [].

Definition scan_rule_single (unit : Unit) : outcome Unit := scan_unit unit.

(** ** Objects

    Units are Python objects: the caller holds a reference, and [scan_unit]
    builds its result as a new object which it then updates in place. *)

Module Heap.

Definition ref := nat.
Definition heap := list Unit.

Definition load (h : heap) (r : ref) : option Unit := nth_error h r.

Definition alloc (h : heap) (u : Unit) : heap * ref := (h ++ [u], length h).

(** Attribute assignment on the object at [r]. *)
Fixpoint update (h : heap) (r : ref) (f : Unit -> Unit) : heap :=
  match h, r with
  | [], _ => []
  | u :: h', O => f u :: h'
  | u :: h', S r' => u :: update h' r' f
  end.

End Heap.

(** [scan_unit] on references ([None]: [unit] is no object of the heap). *)
Definition scan_unit_obj (h : Heap.heap) (unit : Heap.ref)
  : option (outcome (Heap.heap * Heap.ref)) :=
  match Heap.load h unit with
  | None => None
  | Some u =>
      Some match scan_findings u with
           | Raised e => Raised e
           | Returned fs =>
               let '(h1, out_unit) := Heap.alloc h (copy_unit u) in
               Returned (Heap.update h1 out_unit (set_findings fs), out_unit)
           end
  end.

(** ** Call statements, as the specification speaks of them *)

(** A call statement written out: the two keywords in any case, white space
    after each, an optional quote on either side of the routine name, and
    the rest of the statement up to its terminator. *)
Record call_stmt : Type := {
  cs_call : text;
  cs_ws1 : text;
  cs_function : text;
  cs_ws2 : text;
  cs_open : option ascii;
  cs_name : text;
  cs_close : option ascii;
  cs_tail : text
}.

Definition quote_text (q : option ascii) : text :=
  match q with
  | Some c => [c]
  | None => []
  end.

Definition render (cs : call_stmt) : text :=
  cs_call cs ++ cs_ws1 cs ++ cs_function cs ++ cs_ws2 cs
  ++ quote_text (cs_open cs) ++ cs_name cs
  ++ quote_text (cs_close cs) ++ cs_tail cs ++ [dot].

(** Equal up to the case of letters. *)
Fixpoint same_word (x l : text) : bool :=
  match x, l with
  | [], [] => true
  | a :: x', b :: l' =>
      Ascii.eqb (Py.to_lower a) (Py.to_lower b) && same_word x' l'
  | _, _ => false
  end.

Definition is_quote (q : option ascii) : bool :=
  match q with
  | None => true
  | Some c => Ascii.eqb c squote || Ascii.eqb c dquote
  end.

Definition nonempty (t : text) : bool :=
  match t with
  | [] => false
  | _ :: _ => true
  end.

(** [stops p t]: a run of [p] cannot go on into [t]. *)
Definition stops (p : ascii -> bool) (t : text) : bool :=
  match t with
  | [] => true
  | c :: _ => negb (p c)
  end.

Definition well_formed (cs : call_stmt) : bool :=
  same_word (cs_call cs) (T "CALL")
  && nonempty (cs_ws1 cs) && forallb is_space (cs_ws1 cs)
  && same_word (cs_function cs) (T "FUNCTION")
  && nonempty (cs_ws2 cs) && forallb is_space (cs_ws2 cs)
  && is_quote (cs_open cs) && is_quote (cs_close cs)
  && nonempty (cs_name cs) && forallb name_char (cs_name cs)
  && stops name_char (quote_text (cs_close cs) ++ cs_tail cs ++ [dot])
  && forallb not_dot (cs_tail cs).

(** The quoting styles of the specification: both quotes single, both
    double, or none. *)
Definition paired (cs : call_stmt) : bool :=
  match cs_open cs, cs_close cs with
  | None, None => true
  | Some a, Some b => Ascii.eqb a b
  | _, _ => false
  end.

(** The invocation keyword alone: [\bCALL\s+FUNCTION\b]. *)
Definition invocation : regex := Cat keyword WordB.

Definition start_cursor (p : option ascii) (t : text) (i : nat) : cursor :=
  {| prev := p; rest := t; pos := i; grp := None |}.

(** An invocation keyword starts at the head of [t], [p] being the
    character before it. *)
Definition invoked (p : option ascii) (t : text) : bool :=
  match match_at invocation p t 0 with
  | Some _ => true
  | None => false
  end.

(** No invocation keyword starts inside [gap], which [after] follows and
    [p] precedes. *)
Fixpoint no_invocation (p : option ascii) (gap after : text) : bool :=
  match gap with
  | [] => true
  | c :: gap' =>
      negb (invoked p (gap ++ after)) && no_invocation (Some c) gap' after
  end.

(** A text in which every statement begun has been closed. *)
Definition terminated (t : text) : Prop :=
  t = [] \/ exists t', t = t' ++ [dot].

(** The cursor after [w] has been read, [t] being what follows. *)
Fixpoint read (w t : text) (st : cursor) : cursor :=
  match w with
  | [] => st
  | c :: w' => read w' t (step c (w' ++ t) st)
  end.

(** Every character the pattern can read satisfies [Q]. *)
Fixpoint all_chars (Q : ascii -> Prop) (r : regex) : Prop :=
  match r with
  | Empty | WordB => True
  | Lit c =>
      forall x, Ascii.eqb (Py.to_lower x) (Py.to_lower c) = true -> Q x
  | Class p | Star p => forall x, p x = true -> Q x
  | Cat r1 r2 | Alt r1 r2 => all_chars Q r1 /\ all_chars Q r2
  | Group r1 => all_chars Q r1
  end.

(** What holds of any spelling of a letter of the two keywords. *)
Definition letter_like (x : ascii) : Prop :=
  is_word x = true /\ not_dot x = true /\ is_space x = false.

(** ** Vocabulary of the properties *)

(** [unit.start_line], an absent one counting as 0. *)
Definition start_line_value (unit : Unit) : Z :=
  match start_line unit with
  | Some n => n
  | None => 0%Z
  end.

(** A flagged statement that starts inside the offsets [s, e). *)
Definition within (s e : nat) (h : span * text) : bool :=
  (s <=? m_start (fst h)) && (m_start (fst h) <? e).

(** Scan-one produces at least one finding for the unit. *)
Definition flagged (u : Unit) : bool :=
  match scan_unit u with
  | Returned r => truthy (findings r)
  | Raised _ => false
  end.


Definition has_dot (t : text) : bool := existsb (fun c => Ascii.eqb c dot) t.



(** A unit of the examples. *)
Definition example_unit (start : Z) (c : text) : Unit :=
  {| pgm_name := T "ZPROG"; inc_name := T "ZINCL"; type := T "PROG";
     name := Some (T "MAIN"); start_line := Some start; end_line := Some 0%Z;
     code := Some c; findings := None |}.

Definition scenario_unit : Unit :=
  example_unit 0
    (T "CALL FUNCTION 'WS_UPLOAD'" ++ [nl] ++ T "  EXPORTING x = y.").

Definition upload_stmt (o c : option ascii) : call_stmt :=
  {| cs_call := T "CALL"; cs_ws1 := T " "; cs_function := T "FUNCTION";
     cs_ws2 := T " "; cs_open := o; cs_name := T "WS_UPLOAD";
     cs_close := c; cs_tail := [] |}.

(** A comment line that mentions the keyword, then a flagged call. *)
Definition commented_unit : Unit :=
  example_unit 0
    (T "* call function next" ++ [nl]
     ++ render (upload_stmt (Some squote) (Some squote))).


(** The number of statement terminators of a text. *)
Fixpoint count_dot (t : text) : nat :=
  match t with
  | [] => 0
  | c :: t' => if Ascii.eqb c dot then S (count_dot t') else count_dot t'
  end.

(** Scan-one returns at least one finding for the unit. *)
Definition has_findings (u : Unit) : bool :=
  match scan_findings u with
  | Returned (_ :: _) => true
  | _ => false
  end.

(** [newlines_escaped raw shown]: [shown] is [raw] with each newline
    replaced by the two characters backslash and n, every other character
    being kept as it is. *)
Inductive newlines_escaped : text -> text -> Prop :=
| ne_nil : newlines_escaped [] []
| ne_newline raw shown :
    newlines_escaped raw shown ->
    newlines_escaped (nl :: raw) (backslash :: "n"%char :: shown)
| ne_other c raw shown :
    c <> nl ->
    newlines_escaped raw shown ->
    newlines_escaped (c :: raw) (c :: shown).

(** ** Facts about the string primitives *)

Section PyFacts.


Lemma slice_app_mid (a b c : text) :
  Py.slice (length a) (length a + length b) (a ++ b ++ c) = b.
Proof.
  unfold Py.slice.
  replace (length a + length b - length a) with (length b) by lia.
  rewrite skipn_app, skipn_all, Nat.sub_diag. simpl.
  rewrite firstn_app, firstn_all, Nat.sub_diag. simpl.
  now rewrite app_nil_r.
Qed.

Lemma text_eqb_eq (a b : text) : Py.text_eqb a b = true <-> a = b.
Proof.
  revert b. induction a as [|x a IH]; intros [|y b]; simpl;
    try (split; (discriminate || reflexivity)).
  rewrite andb_true_iff, Ascii.eqb_eq, IH. split.
  - intros [-> ->]. reflexivity.
  - intros H. inversion H. auto.
Qed.

Lemma mem_In (x : text) (l : list text) : Py.mem x l = true <-> In x l.
Proof.
  unfold Py.mem. rewrite existsb_exists. split.
  - intros (y & Hy & E). apply text_eqb_eq in E. now subst.
  - intros H. exists x. split; [assumption | now apply text_eqb_eq].
Qed.


Lemma index_nl_none (t : text) (i : nat) :
  Py.index_nl t i = None -> Py.count_nl t = 0.
Proof.
  revert i. induction t as [|c t IH]; intros i; simpl; [reflexivity|].
  destruct (Ascii.eqb c nl); [discriminate|]. apply IH.
Qed.

Lemma index_nl_some (t : text) (i j : nat) :
  Py.index_nl t i = Some j ->
  exists a b, t = a ++ nl :: b /\ j = i + length a /\ Py.count_nl a = 0.
Proof.
  revert i. induction t as [|c t IH]; intros i; simpl; [discriminate|].
  destruct (Ascii.eqb c nl) eqn:E.
  - intros [= <-]. apply Ascii.eqb_eq in E. subst c.
    exists [], t. simpl. split; [reflexivity|]. split; [lia | reflexivity].
  - intros H. destruct (IH _ H) as (a & b & -> & -> & Hc).
    exists (c :: a), b. simpl. rewrite E.
    split; [reflexivity|]. split; [lia | assumption].
Qed.

Lemma rindex_nl_none (t : text) (i : nat) :
  Py.rindex_nl t i = None -> Py.count_nl t = 0.
Proof.
  revert i. induction t as [|c t IH]; intros i; simpl; [reflexivity|].
  destruct (Py.rindex_nl t (S i)) eqn:E; [discriminate|].
  destruct (Ascii.eqb c nl); [discriminate|]. intros _. now apply IH in E.
Qed.

Lemma rindex_nl_some (t : text) (i j : nat) :
  Py.rindex_nl t i = Some j ->
  exists a b, t = a ++ nl :: b /\ j = i + length a /\ Py.count_nl b = 0.
Proof.
  revert i. induction t as [|c t IH]; intros i; simpl; [discriminate|].
  destruct (Py.rindex_nl t (S i)) eqn:E.
  - intros [= <-]. destruct (IH _ E) as (a & b & -> & -> & Hc).
    exists (c :: a), b. simpl. split; [reflexivity|]. split; [lia|assumption].
  - destruct (Ascii.eqb c nl) eqn:Ec; [|discriminate].
    intros [= <-]. apply Ascii.eqb_eq in Ec. subst c.
    exists [], t. simpl. split; [reflexivity|].
    split; [lia | now apply rindex_nl_none in E].
Qed.

End PyFacts.

(** ** The matcher against its declarative reading *)

Section Matcher.

Lemma star_sound (p : ascii -> bool) (t : text) :
  forall st k res,
    rest st = t -> star p t st k = Some res ->
    exists st', reaches (Star p) st st' /\ k st' = Some res.
Proof.
  induction t as [|c t IH]; intros st k res Hr H; simpl in H.
  - exists st. split; [constructor | assumption].
  - destruct (p c) eqn:Hp.
    + destruct (star p t (step c t st) k) as [r|] eqn:E.
      * injection H as <-.
        destruct (IH (step c t st) k r eq_refl E) as (st' & R & K).
        exists st'. split; [|assumption].
        eapply R_star_more; eassumption.
      * exists st. split; [constructor | assumption].
    + exists st. split; [constructor | assumption].
Qed.

(** Whatever [run] returns came out of the continuation at a cursor the
    pattern can reach. *)
Lemma run_sound (r : regex) :
  forall st k res,
    run r st k = Some res ->
    exists st', reaches r st st' /\ k st' = Some res.
Proof.
  induction r as [|c|p| |r1 IH1 r2 IH2|r1 IH1 r2 IH2|p|r1 IH1];
    intros st k res H; simpl in H.
  - exists st. split; [constructor | assumption].
  - destruct (rest st) as [|x t] eqn:Hr; [discriminate|].
    destruct (Ascii.eqb (Py.to_lower x) (Py.to_lower c)) eqn:E;
      [|discriminate].
    exists (step x t st). split; [now apply R_lit | assumption].
  - destruct (rest st) as [|x t] eqn:Hr; [discriminate|].
    destruct (p x) eqn:E; [|discriminate].
    exists (step x t st). split; [now apply R_class | assumption].
  - destruct (at_boundary st) eqn:E; [|discriminate].
    exists st. split; [now constructor | assumption].
  - destruct (IH1 _ _ _ H) as (st1 & R1 & H1).
    destruct (IH2 _ _ _ H1) as (st2 & R2 & H2).
    exists st2. split; [econstructor; eassumption | assumption].
  - destruct (run r1 st k) as [res1|] eqn:E.
    + injection H as <-. destruct (IH1 _ _ _ E) as (st' & R & K).
      exists st'. split; [now apply R_alt_l | assumption].
    + destruct (IH2 _ _ _ H) as (st' & R & K).
      exists st'. split; [now apply R_alt_r | assumption].
  - eapply star_sound; [reflexivity | eassumption].
  - destruct (IH1 _ _ _ H) as (st' & R & K).
    eexists. split; [apply R_group; eassumption | assumption].
Qed.

Lemma star_complete (p : ascii -> bool) (st st' : cursor) :
  reaches (Star p) st st' ->
  forall k, k st' <> None -> star p (rest st) st k <> None.
Proof.
  intros R. remember (Star p) as r eqn:Er.
  induction R; try discriminate; injection Er as ->; intros k Hk.
  - destruct (rest st) as [|c t]; simpl; [assumption|].
    destruct (p c); [|assumption].
    destruct (star p t (step c t st) k); [discriminate | assumption].
  - rewrite H. simpl. rewrite H0.
    specialize (IHR eq_refl k Hk). simpl in IHR.
    destruct (star p t (step x t st) k); [discriminate | contradiction].
Qed.

(** If the pattern can reach a cursor the continuation accepts, [run]
    succeeds (possibly at another, preferred cursor). *)
Lemma run_complete (r : regex) (st st' : cursor) :
  reaches r st st' ->
  forall k, k st' <> None -> run r st k <> None.
Proof.
  intros R. induction R; intros k Hk; simpl.
  - assumption.
  - rewrite H, H0. assumption.
  - rewrite H, H0. assumption.
  - rewrite H. assumption.
  - apply IHR1. apply IHR2. assumption.
  - specialize (IHR k Hk). destruct (run r1 st k); [discriminate|].
    contradiction.
  - destruct (run r1 st k); [discriminate|]. now apply IHR.
  - eapply star_complete; [apply R_star_stop | assumption].
  - eapply star_complete; [eapply R_star_more; eassumption | assumption].
  - apply IHR. assumption.
Qed.

(** A match reads a contiguous piece of text and counts its length. *)
Lemma reaches_consumed_chars (Q : ascii -> Prop) (r : regex)
      (st st' : cursor) :
  reaches r st st' -> all_chars Q r ->
  exists w, rest st = w ++ rest st'
            /\ pos st' = pos st + length w
            /\ prev st' = last_of (prev st) w
            /\ Forall Q w.
Proof.
  induction 1; simpl; intros A.
  - exists []. simpl. auto.
  - exists [x]. simpl. rewrite H. repeat split; [lia | auto].
  - exists [x]. simpl. rewrite H. repeat split; [lia | auto].
  - exists []. simpl. auto.
  - destruct A as [A1 A2].
    destruct (IHreaches1 A1) as (w1 & E1 & P1 & L1 & Q1).
    destruct (IHreaches2 A2) as (w2 & E2 & P2 & L2 & Q2).
    exists (w1 ++ w2). rewrite E1, E2, P2, P1, L2, L1, length_app.
    unfold last_of. rewrite fold_left_app, app_assoc.
    repeat split; [lia | now apply Forall_app].
  - apply IHreaches, A.
  - apply IHreaches, A.
  - exists []. simpl. auto.
  - destruct (IHreaches A) as (w & E & P & L & Qw). simpl in *.
    exists (x :: w). rewrite H. simpl. rewrite E, P, L.
    repeat split; [lia | auto].
  - destruct (IHreaches A) as (w & E & P & L & Qw).
    exists w. simpl. auto.
Qed.

Lemma all_chars_True (r : regex) : all_chars (fun _ => True) r.
Proof. induction r; simpl; auto. Qed.

Lemma reaches_consumed (r : regex) (st st' : cursor) :
  reaches r st st' ->
  exists w, rest st = w ++ rest st'
            /\ pos st' = pos st + length w
            /\ prev st' = last_of (prev st) w.
Proof.
  intros R.
  destruct (reaches_consumed_chars (fun _ => True) _ _ _ R (all_chars_True r))
    as (w & E & P & L & _).
  exists w. auto.
Qed.

Lemma reaches_keeps_group (r : regex) (st st' : cursor) :
  reaches r st st' -> has_group r = false -> grp st' = grp st.
Proof.
  induction 1; simpl; intros G; try reflexivity; try discriminate.
  - apply orb_false_iff in G. destruct G as [G1 G2].
    rewrite IHreaches2, IHreaches1; auto.
  - apply orb_false_iff in G. destruct G as [G1 G2]. auto.
  - apply orb_false_iff in G. destruct G as [G1 G2]. auto.
  - rewrite IHreaches; auto.
Qed.

(** Matching looks at the text and at the character before it, not at
    offsets. *)
Lemma reaches_view (r : regex) (st st' : cursor) :
  reaches r st st' ->
  forall y,
    prev y = prev st -> rest y = rest st ->
    exists y', reaches r y y'
                 /\ prev y' = prev st' /\ rest y' = rest st'.
Proof.
  induction 1; intros y Hp Hr.
  - exists y. split; [constructor | auto].
  - exists (step x t y). split; [|auto].
    apply R_lit; [congruence | assumption].
  - exists (step x t y). split; [|auto].
    apply R_class; [congruence | assumption].
  - exists y. split; [|auto]. constructor.
    unfold at_boundary in *. now rewrite Hp, Hr.
  - destruct (IHreaches1 y Hp Hr) as (s1 & R1 & Hp1 & Hr1).
    destruct (IHreaches2 s1 Hp1 Hr1) as (s2 & R2 & Hp2 & Hr2).
    exists s2. split; [econstructor; eassumption | auto].
  - destruct (IHreaches y Hp Hr) as (s1 & R1 & V1).
    exists s1. split; [now apply R_alt_l | exact V1].
  - destruct (IHreaches y Hp Hr) as (s1 & R1 & V1).
    exists s1. split; [now apply R_alt_r | exact V1].
  - exists y. split; [constructor | auto].
  - destruct (IHreaches (step x t y) eq_refl eq_refl)
      as (s1 & R1 & V1).
    exists s1. split; [|exact V1].
    apply R_star_more with (x := x) (t := t);
      [congruence | assumption | exact R1].
  - destruct (IHreaches y Hp Hr) as (s1 & R1 & Hp1 & Hr1).
    eexists. split; [apply R_group; exact R1 | auto].
Qed.

End Matcher.

(** ** Facts about [finditer] and [search] *)

Section Iteration.

Lemma match_at_reaches (r : regex) (p : option ascii) (t : text) (i : nat)
      (m : span) :
  match_at r p t i = Some m ->
  exists st', reaches r (start_cursor p t i) st'
              /\ m = {| m_start := i; m_end := pos st';
                        m_group := grp st' |}.
Proof.
  unfold match_at. fold (start_cursor p t i).
  destruct (run r (start_cursor p t i) Some) as [res|] eqn:E; [|discriminate].
  intros [= <-]. destruct (run_sound _ _ _ _ E) as (st' & R & [= ->]).
  exists res. split; [assumption | reflexivity].
Qed.

Lemma match_at_start (r : regex) (p : option ascii) (t : text) (i : nat)
      (m : span) :
  match_at r p t i = Some m -> m_start m = i.
Proof.
  intros H. destruct (match_at_reaches _ _ _ _ _ H) as (st' & _ & ->).
  reflexivity.
Qed.

(** A match lies inside the text it was found in. *)
Lemma match_at_bounds (r : regex) (p : option ascii) (t : text) (i : nat)
      (m : span) :
  match_at r p t i = Some m ->
  exists w u, t = w ++ u /\ m_start m = i /\ m_end m = i + length w.
Proof.
  intros H. destruct (match_at_reaches _ _ _ _ _ H) as (st' & R & ->).
  destruct (reaches_consumed _ _ _ R) as (w & E & P & _). simpl in *.
  exists w, (rest st'). auto.
Qed.

(** Matches come out by strictly increasing start offset. *)
Lemma finditer_from_sorted (r : regex) (t : text) :
  forall skip p i,
    Forall (fun m => i + skip <= m_start m) (finditer_from r skip p t i)
    /\ StronglySorted (fun a b => m_start a < m_start b)
                      (finditer_from r skip p t i).
Proof.
  induction t as [|c t IH]; intros skip p i; simpl.
  - destruct skip; [|split; constructor].
    destruct (match_at r p [] i) as [m|] eqn:E; [|split; constructor].
    apply match_at_start in E. split.
    + constructor; [lia | constructor].
    + constructor; constructor.
  - destruct skip as [|n].
    + destruct (match_at r p (c :: t) i) as [m|] eqn:E.
      * apply match_at_start in E.
        destruct (IH (m_end m - S i) (Some c) (S i)) as [F S0]. split.
        -- constructor; [lia|].
           eapply Forall_impl; [|exact F]. simpl. intros; lia.
        -- constructor; [assumption|].
           eapply Forall_impl; [|exact F]. simpl. intros; lia.
      * destruct (IH 0 (Some c) (S i)) as [F S0]. split; [|assumption].
        eapply Forall_impl; [|exact F]. simpl. intros; lia.
    + destruct (IH n (Some c) (S i)) as [F S0]. split; [|assumption].
      eapply Forall_impl; [|exact F]. simpl. intros; lia.
Qed.

(** Each match is a piece of the scanned text. *)
Lemma finditer_from_bounds (r : regex) (t : text) :
  forall skip p i,
    Forall (fun m => i <= m_start m /\ m_start m <= m_end m
                     /\ m_end m <= i + length t)
           (finditer_from r skip p t i).
Proof.
  induction t as [|c t IH]; intros skip p i; simpl.
  - destruct skip; [|constructor].
    destruct (match_at r p [] i) as [m|] eqn:E; [|constructor].
    destruct (match_at_bounds _ _ _ _ _ E) as (w & u & Ew & Es & Ee).
    constructor; [|constructor].
    assert (length ([] : text) = length (w ++ u)) by now rewrite <- Ew.
    rewrite length_app in H. simpl in H. lia.
  - assert (Hrec : forall n,
               Forall (fun m => i <= m_start m /\ m_start m <= m_end m
                                /\ m_end m <= i + S (length t))
                      (finditer_from r n (Some c) t (S i))).
    { intros n. eapply Forall_impl; [|apply (IH n (Some c) (S i))].
      simpl. intros; lia. }
    destruct skip as [|n]; [|apply Hrec].
    destruct (match_at r p (c :: t) i) as [m|] eqn:E; [|apply Hrec].
    constructor; [|apply Hrec].
    destruct (match_at_bounds _ _ _ _ _ E) as (w & u & Ew & Es & Ee).
    assert (length (c :: t) = length (w ++ u)) by now rewrite <- Ew.
    rewrite length_app in H. simpl in H. lia.
Qed.

Lemma search_from_match (r : regex) (t : text) :
  forall p i m,
    search_from r p t i = Some m ->
    exists p' t' i', match_at r p' t' i' = Some m.
Proof.
  induction t as [|c t IH]; intros p i m; simpl.
  - destruct (match_at r p [] i) eqn:E; [|discriminate].
    intros [= <-]. eauto.
  - destruct (match_at r p (c :: t) i) eqn:E.
    + intros [= <-]. eauto.
    + apply IH.
Qed.

End Iteration.

(** ** Character facts *)

Section Characters.

Ltac all_ascii x :=
  destruct x as [[] [] [] [] [] [] [] []]; vm_compute;
  intros; try discriminate; auto.

Lemma space_not_word (c : ascii) : is_space c = true -> is_word c = false.
Proof. all_ascii c. Qed.

Lemma space_not_dot (c : ascii) : is_space c = true -> not_dot c = true.
Proof. all_ascii c. Qed.



Lemma name_not_space (c : ascii) : name_char c = true -> is_space c = false.
Proof. all_ascii c. Qed.

Lemma name_not_dot (c : ascii) : name_char c = true -> not_dot c = true.
Proof. all_ascii c. Qed.

Lemma name_not_quote (c : ascii) :
  name_char c = true ->
  Ascii.eqb (Py.to_lower c) (Py.to_lower squote) = false
  /\ Ascii.eqb (Py.to_lower c) (Py.to_lower dquote) = false.
Proof. all_ascii c. Qed.

Lemma only_dot_is_dot (c : ascii) :
  Ascii.eqb (Py.to_lower c) (Py.to_lower dot) = true -> c = dot.
Proof. all_ascii c. Qed.

Lemma not_dot_neq (c : ascii) : not_dot c = true -> c <> dot.
Proof.
  unfold not_dot. intros H ->. now rewrite Ascii.eqb_refl in H.
Qed.

Lemma keyword_letter (l x : ascii) :
  In l (T "CALLFUNCTION") ->
  Ascii.eqb (Py.to_lower x) (Py.to_lower l) = true -> letter_like x.
Proof.
  unfold letter_like. simpl.
  intros [<-|[<-|[<-|[<-|[<-|[<-|[<-|[<-|[<-|[<-|[<-|[<-|[]]]]]]]]]]]]];
    all_ascii x.
Qed.

Lemma same_word_letters (l x : text) :
  incl l (T "CALLFUNCTION") -> same_word x l = true ->
  Forall letter_like x /\ length x = length l.
Proof.
  revert x. induction l as [|b l IH]; intros [|a x] I H; simpl in H;
    try discriminate.
  - split; [constructor | reflexivity].
  - apply andb_true_iff in H. destruct H as [H1 H2].
    destruct (IH x) as [F L]; [intros y Hy; apply I; now right | assumption|].
    split; [|simpl; now rewrite L].
    constructor; [|assumption].
    apply keyword_letter with (l := b); [apply I; now left | assumption].
Qed.

End Characters.

(** ** What the two patterns match *)

Section Patterns.

Lemma reaches_cat_inv (r1 r2 : regex) (st st' : cursor) :
  reaches (Cat r1 r2) st st' ->
  exists s, reaches r1 st s /\ reaches r2 s st'.
Proof. inversion 1; subst. eauto. Qed.

Lemma reaches_wordb_inv (st st' : cursor) :
  reaches WordB st st' -> st' = st /\ at_boundary st = true.
Proof. inversion 1; subst. auto. Qed.

Lemma reaches_lit_inv (c : ascii) (st st' : cursor) :
  reaches (Lit c) st st' ->
  exists x t, rest st = x :: t
              /\ Ascii.eqb (Py.to_lower x) (Py.to_lower c) = true
              /\ st' = step x t st.
Proof. inversion 1; subst. eauto. Qed.

Lemma reaches_group_inv (r : regex) (st st' : cursor) :
  reaches (Group r) st st' ->
  exists s, reaches r st s /\ st' = set_grp (pos st) (pos s) s.
Proof. inversion 1; subst. eauto. Qed.

Lemma keyword_chars : all_chars (fun x => not_dot x = true) keyword.
Proof.
  assert (L : forall l, In l (T "CALLFUNCTION") ->
              forall x, Ascii.eqb (Py.to_lower x) (Py.to_lower l) = true ->
                        not_dot x = true).
  { intros l Hl x Hx. apply (keyword_letter _ _ Hl Hx). }
  unfold keyword, Plus. simpl.
  repeat split;
    try (apply L; simpl; tauto); try exact space_not_dot.
Qed.

(** A statement match runs up to and including the first terminator after
    its start, and starts with the invocation keyword. *)
Lemma stmt_shape (st st' : cursor) :
  reaches STMT_RE st st' ->
  exists w s1,
    rest st = w ++ dot :: rest st'
    /\ Forall (fun x => not_dot x = true) w
    /\ pos st' = pos st + S (length w)
    /\ grp st' = grp st
    /\ reaches invocation st s1.
Proof.
  unfold STMT_RE. intros R.
  apply reaches_cat_inv in R. destruct R as (s1 & Rk & R).
  apply reaches_cat_inv in R. destruct R as (s2 & Rb & R).
  apply reaches_cat_inv in R. destruct R as (s3 & Rs & Rd).
  apply reaches_wordb_inv in Rb. destruct Rb as [-> Hb].
  apply reaches_lit_inv in Rd. destruct Rd as (x & t & Ex & Cx & ->).
  apply only_dot_is_dot in Cx. subst x.
  destruct (reaches_consumed_chars _ _ _ _ Rk keyword_chars)
    as (w1 & E1 & P1 & _ & Q1).
  assert (A : all_chars (fun x => not_dot x = true) (Star not_dot))
    by (simpl; auto).
  destruct (reaches_consumed_chars _ _ _ _ Rs A) as (w2 & E2 & P2 & _ & Q2).
  exists (w1 ++ w2), s1. simpl.
  rewrite E1, E2, Ex, <- app_assoc, length_app.
  repeat split.
  - now apply Forall_app.
  - lia.
  - rewrite (reaches_keeps_group _ _ _ Rs eq_refl).
    apply (reaches_keeps_group _ _ _ Rk eq_refl).
  - unfold invocation. econstructor; [eassumption|]. now constructor.
Qed.

(** Every match of the name pattern carries the group. *)
Lemma fn_name_group (st st' : cursor) :
  reaches FN_NAME_RE st st' -> exists a b, grp st' = Some (a, b).
Proof.
  unfold FN_NAME_RE. intros R.
  apply reaches_cat_inv in R. destruct R as (s1 & _ & R).
  apply reaches_cat_inv in R. destruct R as (s2 & _ & R).
  apply reaches_cat_inv in R. destruct R as (s3 & _ & R).
  apply reaches_cat_inv in R. destruct R as (s4 & _ & R).
  apply reaches_cat_inv in R. destruct R as (s5 & Rg & R).
  apply reaches_group_inv in Rg. destruct Rg as (s & _ & ->).
  rewrite (reaches_keeps_group _ _ _ R eq_refl). simpl. eauto.
Qed.

End Patterns.

(** ** The loop of [scan_unit] as a map over the flagged statements *)

Section Loop.

Lemma search_group (stmt : text) (nm : span) :
  search FN_NAME_RE stmt = Some nm -> exists a b, m_group nm = Some (a, b).
Proof.
  unfold search. intros H.
  apply search_from_match in H. destruct H as (p & t & i & H).
  apply match_at_reaches in H. destruct H as (st' & R & ->).
  simpl. eapply fn_name_group. eassumption.
Qed.

Lemma scan_match_detect (u : Unit) (src : text) (base : Z) (m : span) :
  scan_match u src base m
  = Returned (option_map (make_finding u src base (m_start m) (m_end m))
                         (detect src m)).
Proof.
  unfold scan_match, detect, called_name, group_upper.
  destruct (search FN_NAME_RE (Py.slice (m_start m) (m_end m) src))
    as [nm|] eqn:E; [|reflexivity].
  destruct (search_group _ _ E) as (a & b & ->).
  destruct (Py.mem _ OBSOLETE_FMS); reflexivity.
Qed.

Lemma scan_loop_hits (u : Unit) (src : text) (base : Z) (ms : list span) :
  forall acc,
    scan_loop u src base ms acc
    = Returned
        (acc ++ map (fun h => make_finding u src base (m_start (fst h))
                                           (m_end (fst h)) (snd h))
                    (hits_of src ms)).
Proof.
  induction ms as [|m ms IH]; intros acc; simpl.
  - now rewrite app_nil_r.
  - rewrite scan_match_detect.
    destruct (detect src m) as [fm|]; simpl.
    + rewrite IH, <- app_assoc. reflexivity.
    + apply IH.
Qed.

(** [scan_unit] never raises, and its findings are the flagged statements
    in order. *)
Lemma scan_findings_hits (u : Unit) :
  scan_findings u = Returned (map (finding_of u) (hits (src_of u))).
Proof. unfold scan_findings. now rewrite scan_loop_hits. Qed.

Lemma scan_unit_hits (u : Unit) :
  scan_unit u
  = Returned (set_findings (map (finding_of u) (hits (src_of u)))
                           (copy_unit u)).
Proof. unfold scan_unit. now rewrite scan_findings_hits. Qed.

Lemma hits_of_app (src : text) (a b : list span) :
  hits_of src (a ++ b) = hits_of src a ++ hits_of src b.
Proof. unfold hits_of. apply flat_map_app. Qed.

Lemma hits_of_in (src : text) (ms : list span) (h : span * text) :
  In h (hits_of src ms) -> In (fst h) ms /\ detect src (fst h) = Some (snd h).
Proof.
  unfold hits_of. rewrite in_flat_map. intros (m & Hm & Hh).
  destruct (detect src m) as [fm|] eqn:E; simpl in Hh; [|contradiction].
  destruct Hh as [<-|[]]. simpl. auto.
Qed.

Lemma detect_obsolete (src : text) (m : span) (fm : text) :
  detect src m = Some fm -> In fm OBSOLETE_FMS.
Proof.
  unfold detect.
  destruct (called_name src m) as [fm'|]; [|discriminate].
  destruct (Py.mem _ OBSOLETE_FMS) eqn:E; [|discriminate].
  intros [= <-]. now apply mem_In.
Qed.

Lemma or_int_value (x : option Z) :
  or_int x 0 = match x with Some n => n | None => 0%Z end.
Proof. destruct x as [[| |]|]; reflexivity. Qed.

Lemma or_text_value (x : option text) :
  or_text x [] = match x with Some t => t | None => [] end.
Proof. destruct x as [[|]|]; reflexivity. Qed.

End Loop.

(** ** The snippet *)

Section Snippet.

(** The text before an offset: empty up to the last newline, then free of
    newlines. *)
Lemma split_before (t : text) (s : nat) :
  s <= length t ->
  exists P B,
    firstn s t = P ++ B
    /\ (P = [] \/ exists P', P = P' ++ [nl])
    /\ Py.count_nl B = 0
    /\ match Py.rfind_nl t s with
       | None => 0
       | Some i => i + 1
       end = length P.
Proof.
  intros Hs. unfold Py.rfind_nl.
  destruct (Py.rindex_nl (firstn s t) 0) as [j|] eqn:E.
  - apply rindex_nl_some in E. destruct E as (a & b & E & -> & Hb).
    exists (a ++ [nl]), b. rewrite E, <- app_assoc. simpl.
    repeat split; [right; eauto | assumption |].
    rewrite length_app. simpl. lia.
  - apply rindex_nl_none in E.
    exists [], (firstn s t). simpl. auto.
Qed.

(** The text from an offset on: free of newlines up to the first one. *)
Lemma split_after (t : text) (e : nat) :
  exists A Q,
    skipn e t = A ++ Q
    /\ (Q = [] \/ exists Q', Q = nl :: Q')
    /\ Py.count_nl A = 0
    /\ match Py.find_nl t e with
       | None => length t
       | Some j => j
       end = length t - length Q.
Proof.
  unfold Py.find_nl.
  destruct (Py.index_nl (skipn e t) e) as [j|] eqn:E.
  - apply index_nl_some in E. destruct E as (a & b & E & -> & Ha).
    exists a, (nl :: b).
    repeat split; [assumption | right; eauto | assumption |].
    assert (L : length (skipn e t) = length (a ++ nl :: b)) by now rewrite E.
    rewrite length_skipn, length_app in L. simpl in *. lia.
  - apply index_nl_none in E.
    exists (skipn e t), []. rewrite app_nil_r. simpl.
    repeat split; [now left | assumption | lia].
Qed.

(** [get_line_snippet] returns the lines the span touches: it begins right
    after the last newline before [s] (or at the start of the text), ends
    at the first newline from [e] on (or at the end of the text), and
    covers the span. *)
Lemma get_line_snippet_lines (t : text) (s e : nat) :
  s <= e -> e <= length t ->
  exists pre raw post,
    t = pre ++ raw ++ post
    /\ get_line_snippet t s e = raw
    /\ (pre = [] \/ exists pre', pre = pre' ++ [nl])
    /\ (post = [] \/ exists post', post = nl :: post')
    /\ length pre <= s
    /\ e <= length pre + length raw
    /\ Py.count_nl (Py.slice (length pre) s t) = 0
    /\ Py.count_nl (Py.slice e (length pre + length raw) t) = 0.
Proof.
  intros Hse He.
  destruct (split_before t s ltac:(lia)) as (P & B & EP & HP & HB & LP).
  destruct (split_after t e) as (A & Q & EQ & HQ & HA & LQ).
  remember (Py.slice s e t) as M eqn:EM.
  assert (Et : t = P ++ (B ++ M ++ A) ++ Q).
  { rewrite <- (firstn_skipn s t) at 1. rewrite EP.
    rewrite <- (firstn_skipn (e - s) (skipn s t)).
    rewrite skipn_skipn. replace (e - s + s) with e by lia.
    rewrite EQ, EM. unfold Py.slice. now rewrite <- !app_assoc. }
  assert (LPB : length P + length B = s).
  { rewrite <- length_app, <- EP, length_firstn. lia. }
  assert (LM : length M = e - s).
  { rewrite EM. unfold Py.slice. rewrite length_firstn, length_skipn. lia. }
  assert (Lt : length t
               = length P + length (B ++ M ++ A) + length Q).
  { rewrite Et at 1. rewrite !length_app. lia. }
  assert (slice_eq : forall a b a' b' (x y : text),
             a = a' -> b = b' -> x = y ->
             Py.slice a b x = Py.slice a' b' y)
    by (intros; subst; reflexivity).
  exists P, (B ++ M ++ A), Q.
  split; [exact Et|].
  split.
  { unfold get_line_snippet. rewrite LP, LQ.
    rewrite <- (slice_app_mid P (B ++ M ++ A) Q).
    apply slice_eq; [reflexivity | lia | exact Et]. }
  split; [exact HP|]. split; [exact HQ|].
  split; [lia|]. split; [rewrite !length_app; lia|].
  split.
  - assert (E : Py.slice (length P) s t = B); [|now rewrite E].
    rewrite <- (slice_app_mid P B (M ++ A ++ Q)).
    apply slice_eq; [reflexivity | lia |].
    rewrite Et at 1. now rewrite <- !app_assoc.
  - assert (E : Py.slice e (length P + length (B ++ M ++ A)) t = A);
      [|now rewrite E].
    rewrite <- (slice_app_mid (P ++ B ++ M) A Q) at 2.
    apply slice_eq.
    + rewrite !length_app; lia.
    + rewrite !length_app; lia.
    + rewrite Et at 1. now rewrite <- !app_assoc.
Qed.

End Snippet.

(** ** Running the patterns forward over a known text *)

Section Forward.

Lemma rest_read (w t : text) :
  forall st, rest st = w ++ t -> rest (read w t st) = t.
Proof.
  induction w as [|c w IH]; intros st H; simpl; [assumption|].
  apply IH. reflexivity.
Qed.

Lemma pos_read (w t : text) :
  forall st, pos (read w t st) = pos st + length w.
Proof.
  induction w as [|c w IH]; intros st; simpl; [lia|].
  rewrite IH. simpl. lia.
Qed.

Lemma prev_read (w t : text) :
  forall st, prev (read w t st) = last_of (prev st) w.
Proof.
  induction w as [|c w IH]; intros st; simpl; [reflexivity|].
  now rewrite IH.
Qed.

Lemma grp_read (w t : text) : forall st, grp (read w t st) = grp st.
Proof.
  induction w as [|c w IH]; intros st; simpl; [reflexivity|].
  now rewrite IH.
Qed.

Lemma read_app (a b t : text) :
  forall st, read (a ++ b) t st = read b t (read a (b ++ t) st).
Proof.
  induction a as [|c a IH]; intros st; simpl; [reflexivity|].
  rewrite IH, <- app_assoc. reflexivity.
Qed.

Lemma last_of_app (p : option ascii) (a b : text) :
  last_of p (a ++ b) = last_of (last_of p a) b.
Proof. unfold last_of. apply fold_left_app. Qed.

Lemma last_of_cons (p : option ascii) (c : ascii) (w : text) :
  exists x, last_of p (c :: w) = Some x /\ In x (c :: w).
Proof.
  revert p c. induction w as [|d w IH]; intros p c.
  - exists c. simpl. auto.
  - destruct (IH (Some c) d) as (x & E & I).
    exists x. split; [exact E | now right].
Qed.

Lemma run_lits (l : text) :
  forall x t st k,
    same_word x l = true -> rest st = x ++ t ->
    run (Lits l) st k = k (read x t st).
Proof.
  induction l as [|b l IH]; intros [|a x] t st k H E; simpl in H;
    try discriminate.
  - reflexivity.
  - apply andb_true_iff in H. destruct H as [H1 H2].
    simpl. rewrite E. simpl. rewrite H1.
    apply IH; [assumption | reflexivity].
Qed.

Lemma run_lit (c x : ascii) (t : text) (st : cursor)
      (k : cursor -> option cursor) :
  Ascii.eqb (Py.to_lower x) (Py.to_lower c) = true -> rest st = x :: t ->
  run (Lit c) st k = k (step x t st).
Proof. intros H E. simpl. now rewrite E, H. Qed.


(** A greedy run that reads all it can and is then accepted. *)
Lemma star_max (p : ascii -> bool) (w t : text) :
  forallb p w = true -> stops p t = true ->
  forall st k res,
    k (read w t st) = Some res -> star p (w ++ t) st k = Some res.
Proof.
  intros Hw Ht. induction w as [|c w IH]; intros st k res H; simpl in *.
  - destruct t as [|c t]; [assumption|]. simpl in *.
    apply negb_true_iff in Ht. now rewrite Ht.
  - apply andb_true_iff in Hw. destruct Hw as [Hc Hw].
    rewrite Hc. now rewrite (IH Hw _ _ _ H).
Qed.

Lemma run_star_max (p : ascii -> bool) (w t : text) (st : cursor)
      (k : cursor -> option cursor) (res : cursor) :
  forallb p w = true -> stops p t = true -> rest st = w ++ t ->
  k (read w t st) = Some res -> run (Star p) st k = Some res.
Proof. intros Hw Ht E H. simpl. rewrite E. now apply star_max. Qed.

Lemma run_plus_max (p : ascii -> bool) (w t : text) (st : cursor)
      (k : cursor -> option cursor) (res : cursor) :
  nonempty w = true -> forallb p w = true -> stops p t = true ->
  rest st = w ++ t ->
  k (read w t st) = Some res -> run (Plus p) st k = Some res.
Proof.
  intros Hn Hw Ht E H. destruct w as [|c w]; [discriminate|].
  simpl in Hw. apply andb_true_iff in Hw. destruct Hw as [Hc Hw].
  unfold Plus. simpl. rewrite E. simpl. rewrite Hc.
  now apply star_max.
Qed.

Lemma run_cat (r1 r2 : regex) (st : cursor) (k : cursor -> option cursor) :
  run (Cat r1 r2) st k = run r1 st (fun st' => run r2 st' k).
Proof. reflexivity. Qed.

Lemma run_wordb (st : cursor) (k : cursor -> option cursor) :
  at_boundary st = true -> run WordB st k = k st.
Proof. intros H. simpl. now rewrite H. Qed.

Lemma stops_letter (p : ascii -> bool) (x t : text) (l : text) :
  (forall c, letter_like c -> p c = false) ->
  incl l (T "CALLFUNCTION") -> nonempty l = true -> same_word x l = true ->
  stops p (x ++ t) = true.
Proof.
  intros Hp I N H. destruct (same_word_letters l x I H) as [F L].
  destruct x as [|a x]; [destruct l; discriminate|].
  simpl. inversion F; subst. now rewrite Hp.
Qed.

(** The keyword read off a text that spells it. *)
Lemma run_keyword (call ws1 fn t : text) (st : cursor)
      (k : cursor -> option cursor) (res : cursor) :
  word_opt (prev st) = false ->
  same_word call (T "CALL") = true ->
  nonempty ws1 = true -> forallb is_space ws1 = true ->
  same_word fn (T "FUNCTION") = true ->
  rest st = call ++ ws1 ++ fn ++ t ->
  k (read (call ++ ws1 ++ fn) t st) = Some res ->
  run keyword st k = Some res.
Proof.
  intros Hp Hc Hn Hs Hf E H.
  assert (Ic : incl (T "CALL") (T "CALLFUNCTION"))
    by (intros c; simpl; tauto).
  assert (If : incl (T "FUNCTION") (T "CALLFUNCTION"))
    by (intros c; simpl; tauto).
  unfold keyword. rewrite run_cat, run_wordb.
  2:{ unfold at_boundary. rewrite Hp, E.
      destruct (same_word_letters _ _ Ic Hc) as [F L].
      destruct call as [|a call]; [discriminate|]. simpl.
      inversion F as [|? ? [Hw _] _]; subst. now rewrite Hw. }
  rewrite run_cat.
  rewrite (run_lits _ call (ws1 ++ fn ++ t)); [|assumption|assumption].
  rewrite run_cat.
  apply (run_plus_max is_space ws1 (fn ++ t)); try assumption.
  - apply stops_letter with (l := T "FUNCTION"); try assumption;
      [|reflexivity].
    intros c (_ & _ & Hc'). exact Hc'.
  - now apply rest_read.
  - rewrite (run_lits _ fn t); [|assumption|].
    + rewrite !read_app, <- app_assoc in H. exact H.
    + apply rest_read. now apply rest_read.
Qed.

End Forward.

(** ** The patterns on a call statement *)

Section OnCallStatement.

Lemma match_at_run (r : regex) (p : option ascii) (t : text) (i : nat)
      (res : cursor) :
  run r (start_cursor p t i) Some = Some res ->
  match_at r p t i
  = Some {| m_start := i; m_end := pos res; m_group := grp res |}.
Proof. unfold match_at, start_cursor. now intros ->. Qed.

Lemma search_at_start (r : regex) (t : text) (m : span) :
  match_at r None t 0 = Some m -> search r t = Some m.
Proof. unfold search. destruct t; simpl; now intros ->. Qed.

(** A statement is matched whole, from its keyword to its terminator. *)
Lemma stmt_match_general (call ws1 fn body post : text)
      (p : option ascii) (i : nat) :
  word_opt p = false ->
  same_word call (T "CALL") = true ->
  nonempty ws1 = true -> forallb is_space ws1 = true ->
  same_word fn (T "FUNCTION") = true ->
  stops is_word (body ++ [dot]) = true ->
  forallb not_dot body = true ->
  match_at STMT_RE p (call ++ ws1 ++ fn ++ body ++ dot :: post) i
  = Some {| m_start := i;
            m_end := i + length (call ++ ws1 ++ fn ++ body ++ [dot]);
            m_group := None |}.
Proof.
  intros Hp Hc Hn Hs Hf Hb Hd.
  assert (If : incl (T "FUNCTION") (T "CALLFUNCTION"))
    by (intros c; simpl; tauto).
  set (st0 := start_cursor p (call ++ ws1 ++ fn ++ body ++ dot :: post) i).
  set (s3 := read (call ++ ws1 ++ fn) (body ++ dot :: post) st0).
  set (s4 := read body (dot :: post) s3).
  assert (E3 : rest s3 = body ++ dot :: post).
  { apply rest_read. unfold st0. simpl. now rewrite <- !app_assoc. }
  assert (E4 : rest s4 = dot :: post) by now apply rest_read.
  assert (R : run STMT_RE st0 Some = Some (step dot post s4)).
  { unfold STMT_RE. rewrite run_cat.
    apply (run_keyword call ws1 fn (body ++ dot :: post)); try assumption;
      [reflexivity|].
    fold s3. rewrite run_cat, run_wordb.
    - rewrite run_cat.
      apply (run_star_max not_dot body (dot :: post)); try assumption.
      + reflexivity.
      + fold s4. now apply run_lit.
    - unfold at_boundary. rewrite E3. unfold s3. rewrite prev_read.
      rewrite !last_of_app.
      destruct (same_word_letters _ _ If Hf) as [F L].
      destruct fn as [|a fn]; [discriminate|].
      destruct (last_of_cons (last_of (last_of (prev st0) call) ws1) a fn)
        as (x & -> & Ix).
      rewrite Forall_forall in F. destruct (F x Ix) as (Hw & _).
      simpl. rewrite Hw. simpl.
      destruct body as [|b body]; simpl in *.
      * reflexivity.
      * apply negb_true_iff in Hb. now rewrite Hb. }
  rewrite (match_at_run _ _ _ _ _ R). simpl.
  f_equal. f_equal.
  - unfold s4, s3. rewrite !pos_read. simpl. rewrite !length_app. simpl. lia.
  - unfold s4, s3. now rewrite !grp_read.
Qed.

Lemma tail_total (s : cursor) :
  exists res, run (Cat (Star is_space) opt_quote) s Some = Some res
              /\ grp res = grp s.
Proof.
  destruct (run (Cat (Star is_space) opt_quote) s Some) as [res|] eqn:E.
  - exists res. split; [reflexivity|].
    destruct (run_sound _ _ _ _ E) as (st' & R & [= ->]).
    apply (reaches_keeps_group _ _ _ R eq_refl).
  - exfalso. revert E. apply run_complete with (st' := s); [|discriminate].
    econstructor; [apply R_star_stop|].
    apply R_alt_r, R_alt_r, R_empty.
Qed.

Lemma run_opt_quote (q : option ascii) (t : text) (st : cursor)
      (k : cursor -> option cursor) (res : cursor) :
  is_quote q = true ->
  (q = None -> exists c t', t = c :: t' /\ name_char c = true) ->
  rest st = quote_text q ++ t ->
  k (read (quote_text q) t st) = Some res ->
  run opt_quote st k = Some res.
Proof.
  intros Hq Hn E H. unfold opt_quote.
  destruct q as [c|]; simpl in *.
  - apply orb_true_iff in Hq. destruct Hq as [Hq|Hq];
      apply Ascii.eqb_eq in Hq; subst c; rewrite E; simpl.
    + now rewrite H.
    + now rewrite H.
  - destruct (Hn eq_refl) as (c & t' & -> & Hc).
    destruct (name_not_quote c Hc) as [N1 N2].
    rewrite E, N1, N2. exact H.
Qed.

Lemma quote_stops_space (q : option ascii) (t : text) :
  is_quote q = true ->
  (q = None -> exists c t', t = c :: t' /\ name_char c = true) ->
  stops is_space (quote_text q ++ t) = true.
Proof.
  intros Hq Hn. destruct q as [c|]; simpl in *.
  - apply orb_true_iff in Hq. destruct Hq as [Hq|Hq];
      apply Ascii.eqb_eq in Hq; subst c; reflexivity.
  - destruct (Hn eq_refl) as (c & t' & -> & Hc). simpl.
    now rewrite (name_not_space c Hc).
Qed.

(** The name pattern, searched in a call statement, matches at its start
    and captures the routine name, whatever quotes surround it. *)
Lemma fn_search_exact (cs : call_stmt) :
  well_formed cs = true ->
  exists nm a b,
    search FN_NAME_RE (render cs) = Some nm
    /\ m_group nm = Some (a, b)
    /\ Py.slice a b (render cs) = cs_name cs.
Proof.
  unfold well_formed. rewrite !andb_true_iff.
  intros [[[[[[[[[[[Hc Hn1] Hs1] Hf] Hn2] Hs2] Hqo] Hqc] Hnn] Hnc] Hst] Hd].
  destruct cs as [call ws1 fn ws2 qo name qc tail]. simpl in *.
  unfold render. simpl.
  set (R := quote_text qc ++ tail ++ [dot]) in *.
  set (st0 := start_cursor None
                (call ++ ws1 ++ fn ++ ws2 ++ quote_text qo ++ name ++ R) 0).
  set (s3 := read (call ++ ws1 ++ fn)
                  (ws2 ++ quote_text qo ++ name ++ R) st0).
  set (s4 := read ws2 (quote_text qo ++ name ++ R) s3).
  set (s5 := read (quote_text qo) (name ++ R) s4).
  set (s6 := read name R s5).
  assert (E3 : rest s3 = ws2 ++ quote_text qo ++ name ++ R).
  { apply rest_read. unfold st0. simpl. now rewrite <- !app_assoc. }
  assert (E4 : rest s4 = quote_text qo ++ name ++ R) by now apply rest_read.
  assert (E5 : rest s5 = name ++ R) by now apply rest_read.
  assert (Hname : exists c t', name ++ R = c :: t' /\ name_char c = true).
  { destruct name as [|c name]; [discriminate|].
    simpl in Hnc. apply andb_true_iff in Hnc. destruct Hnc as [Hc' _].
    exists c, (name ++ R). auto. }
  destruct (tail_total (set_grp (pos s5) (pos s6) s6)) as (res & Er & Gr).
  assert (Run : run FN_NAME_RE st0 Some = Some res).
  { unfold FN_NAME_RE. rewrite run_cat.
    apply (run_keyword call ws1 fn (ws2 ++ quote_text qo ++ name ++ R));
      try assumption; try reflexivity.
    fold s3. rewrite run_cat.
    apply (run_plus_max is_space ws2 (quote_text qo ++ name ++ R));
      try assumption.
    { apply quote_stops_space; [assumption | intros _; exact Hname]. }
    fold s4. rewrite run_cat.
    apply (run_opt_quote qo (name ++ R)); try assumption;
      [intros _; exact Hname|].
    fold s5. rewrite run_cat.
    apply (run_star_max is_space [] (name ++ R)); try assumption;
      try reflexivity.
    { destruct Hname as (c & t' & -> & Hc'). simpl.
      now rewrite (name_not_space c Hc'). }
    simpl read. rewrite run_cat. cbn [run]. fold (Plus name_char).
    apply (run_plus_max name_char name R); assumption. }
  exists {| m_start := 0; m_end := pos res; m_group := grp res |},
    (pos s5), (pos s6).
  split; [|split].
  - apply search_at_start, match_at_run, Run.
  - simpl. rewrite Gr. reflexivity.
  - unfold s6, s5, s4, s3. rewrite !pos_read. simpl.
    replace (call ++ ws1 ++ fn ++ ws2 ++ quote_text qo ++ name ++ R)
      with ((call ++ ws1 ++ fn ++ ws2 ++ quote_text qo) ++ name ++ R)
      by now rewrite <- !app_assoc.
    replace (length (call ++ ws1 ++ fn) + length ws2
             + length (quote_text qo))
      with (length (call ++ ws1 ++ fn ++ ws2 ++ quote_text qo))
      by (rewrite !length_app; lia).
    apply slice_app_mid.
Qed.

End OnCallStatement.

(** ** Where [finditer] finds statements *)

Section Scanning.

(** Inside a match nothing is looked at. *)
Lemma finditer_skip (r : regex) (a Y : text) :
  forall p i,
    finditer_from r (length a) p (a ++ Y) i
    = finditer_from r 0 (last_of p a) Y (i + length a).
Proof.
  induction a as [|c a IH]; intros p i; simpl.
  - now rewrite Nat.add_0_r.
  - rewrite IH. f_equal. lia.
Qed.

(** A statement starts with an invocation keyword and holds a
    terminator. *)
Lemma stmt_match_needs (p : option ascii) (b : text) (i : nat) (m : span) :
  match_at STMT_RE p b i = Some m ->
  invoked p b = true /\ has_dot b = true.
Proof.
  intros E. apply match_at_reaches in E. destruct E as (st' & R & _).
  apply stmt_shape in R. destruct R as (w & s1 & Er & _ & _ & _ & R).
  simpl in Er. split.
  - destruct (reaches_view _ _ _ R (start_cursor p b 0) eq_refl eq_refl)
      as (s2 & R2 & _).
    unfold invoked, match_at. fold (start_cursor p b 0).
    destruct (run invocation (start_cursor p b 0) Some) eqn:E;
      [reflexivity|].
    exfalso. revert E.
    apply run_complete with (st' := s2); [assumption | discriminate].
  - unfold has_dot. apply existsb_exists. exists dot.
    split; [|apply Ascii.eqb_refl].
    rewrite Er. apply in_or_app. right. now left.
Qed.

Lemma no_invocation_no_stmt (p : option ascii) (t : text) (i : nat) :
  invoked p t = false -> match_at STMT_RE p t i = None.
Proof.
  intros H. destruct (match_at STMT_RE p t i) as [m|] eqn:E; [|reflexivity].
  apply stmt_match_needs in E. destruct E as [E _]. congruence.
Qed.

(** Text without an invocation keyword is passed over. *)
Lemma finditer_gap (gap after : text) :
  forall p i,
    no_invocation p gap after = true ->
    finditer_from STMT_RE 0 p (gap ++ after) i
    = finditer_from STMT_RE 0 (last_of p gap) after (i + length gap).
Proof.
  induction gap as [|c gap IH]; intros p i H.
  - simpl. now rewrite Nat.add_0_r.
  - simpl in H. apply andb_true_iff in H. destruct H as [E H].
    apply negb_true_iff in E.
    apply no_invocation_no_stmt with (i := i) in E.
    change ((c :: gap) ++ after) with (c :: gap ++ after) in *.
    cbn [finditer_from]. rewrite E, (IH _ _ H). simpl. f_equal. lia.
Qed.

Lemma terminated_tail (c : ascii) (d : text) :
  terminated (c :: d) -> terminated d /\ In dot (c :: d).
Proof.
  intros [H|(t' & H)]; [discriminate|]. split.
  - destruct d as [|x d]; [now left|]. right.
    destruct t' as [|y t']; [discriminate|].
    injection H as _ H. eauto.
  - rewrite H. apply in_or_app. right. now left.
Qed.

(** The first terminator of a text closes the statement. *)
Lemma first_dot_inside (w u : text) :
  Forall (fun x => not_dot x = true) w ->
  forall d X, d ++ X = w ++ dot :: u -> In dot d -> length w < length d.
Proof.
  induction 1 as [|c w Hc Hw IH]; intros d X E I.
  - destruct d; [contradiction | simpl; lia].
  - destruct d as [|c' d]; [contradiction|].
    simpl in E. injection E as -> E.
    destruct I as [I|I]; [now apply not_dot_neq in Hc|].
    simpl. apply IH in E; [lia | assumption].
Qed.

(** Over text whose statements are all closed, every match ends inside
    it and the scan resumes right after it. *)
Lemma finditer_done (d X : text) :
  forall skip p i,
    terminated d -> skip <= length d ->
    exists L1,
      finditer_from STMT_RE skip p (d ++ X) i
      = L1 ++ finditer_from STMT_RE 0 (last_of p d) X (i + length d)
      /\ Forall (fun m => m_start m < i + length d) L1.
Proof.
  induction d as [|c d IH]; intros skip p i Ht Hs.
  - exists []. simpl in *. replace skip with 0 by lia.
    rewrite Nat.add_0_r. split; [reflexivity | constructor].
  - destruct (terminated_tail _ _ Ht) as [Ht' Hdot].
    assert (Hrec : forall n, n <= length d ->
              exists L1,
                finditer_from STMT_RE n (Some c) (d ++ X) (S i)
                = L1 ++ finditer_from STMT_RE 0 (last_of p (c :: d)) X
                                      (i + length (c :: d))
                /\ Forall (fun m => m_start m < i + length (c :: d)) L1).
    { intros n Hn. destruct (IH n (Some c) (S i) Ht' Hn) as (L1 & E & F).
      exists L1.
      change (last_of p (c :: d)) with (last_of (Some c) d).
      replace (i + length (c :: d)) with (S i + length d) by (simpl; lia).
      split; assumption. }
    change ((c :: d) ++ X) with (c :: d ++ X). cbn [finditer_from].
    destruct skip as [|n].
    + destruct (match_at STMT_RE p (c :: d ++ X) i) as [m|] eqn:E.
      * pose proof (match_at_start _ _ _ _ _ E) as Es.
        apply match_at_reaches in E. destruct E as (st' & R & ->).
        apply stmt_shape in R.
        destruct R as (w & s1 & Er & Fw & Ep & _ & _). simpl in *.
        assert (Hl : length w < length (c :: d)).
        { apply (first_dot_inside w (rest st') Fw (c :: d) X);
            [exact Er | exact Hdot]. }
        simpl in Hl.
        destruct (Hrec (pos st' - S i) ltac:(lia)) as (L1 & E & F).
        eexists (_ :: L1). split.
        -- simpl. rewrite E. reflexivity.
        -- constructor; [simpl; lia | assumption].
      * apply (Hrec 0). lia.
    + apply (Hrec n). simpl in Hs. lia.
Qed.



End Scanning.

(** ** A call statement inside a unit *)

Section Occurrence.

Lemma forallb_impl (p q : ascii -> bool) (l : text) :
  (forall c, p c = true -> q c = true) ->
  forallb p l = true -> forallb q l = true.
Proof.
  intros H. rewrite !forallb_forall. auto.
Qed.

Lemma quote_not_dot (q : option ascii) :
  is_quote q = true -> forallb not_dot (quote_text q) = true.
Proof.
  destruct q as [c|]; simpl; [|reflexivity].
  intros H. apply orb_true_iff in H.
  destruct H as [H|H]; apply Ascii.eqb_eq in H; subst c; reflexivity.
Qed.

(** A call statement is its keyword, a body free of terminators that
    starts with white space, and the terminator. *)
Lemma render_body (cs : call_stmt) :
  well_formed cs = true ->
  exists body,
    render cs = cs_call cs ++ cs_ws1 cs ++ cs_function cs ++ body ++ [dot]
    /\ same_word (cs_call cs) (T "CALL") = true
    /\ nonempty (cs_ws1 cs) = true /\ forallb is_space (cs_ws1 cs) = true
    /\ same_word (cs_function cs) (T "FUNCTION") = true
    /\ stops is_word (body ++ [dot]) = true
    /\ forallb not_dot body = true.
Proof.
  unfold well_formed. rewrite !andb_true_iff.
  intros [[[[[[[[[[[Hc Hn1] Hs1] Hf] Hn2] Hs2] Hqo] Hqc] Hnn] Hnc] Hst] Hd].
  exists (cs_ws2 cs ++ quote_text (cs_open cs) ++ cs_name cs
          ++ quote_text (cs_close cs) ++ cs_tail cs).
  repeat split; try assumption.
  - unfold render. now rewrite <- !app_assoc.
  - destruct (cs_ws2 cs) as [|c w]; [discriminate|]. simpl in *.
    apply andb_true_iff in Hs2. destruct Hs2 as [Hs2 _].
    now rewrite (space_not_word c Hs2).
  - rewrite !forallb_app, !andb_true_iff. repeat split.
    + apply (forallb_impl is_space); [exact space_not_dot | assumption].
    + now apply quote_not_dot.
    + apply (forallb_impl name_char); [exact name_not_dot | assumption].
    + now apply quote_not_dot.
    + assumption.
Qed.

Lemma render_length (cs : call_stmt) : 0 < length (render cs).
Proof. unfold render. rewrite !length_app. simpl. lia. Qed.

(** The statement is found as one match, after the matches of the text
    before it and before those of the text after it. *)
Lemma occurrence_found (cs : call_stmt) (done gap post : text) :
  well_formed cs = true ->
  terminated done ->
  no_invocation (last_of None done) gap (render cs ++ post) = true ->
  word_opt (last_of None (done ++ gap)) = false ->
  exists L1 L2,
    finditer STMT_RE (done ++ gap ++ render cs ++ post)
    = L1 ++ {| m_start := length (done ++ gap);
               m_end := length (done ++ gap) + length (render cs);
               m_group := None |} :: L2
    /\ Forall (fun m => m_start m < length (done ++ gap)) L1
    /\ Forall (fun m => length (done ++ gap) + length (render cs)
                        <= m_start m) L2.
Proof.
  intros Hwf Hdone Hgap Hb.
  destruct (render_body cs Hwf)
    as (body & Er & Hc & Hn1 & Hs1 & Hf & Hst & Hd).
  unfold finditer.
  destruct (finditer_done done (gap ++ render cs ++ post) 0 None 0
                          Hdone ltac:(lia)) as (L1 & E1 & F1).
  rewrite E1. simpl "+".
  rewrite (finditer_gap _ _ _ _ Hgap).
  rewrite <- last_of_app, <- length_app.
  set (p := last_of None (done ++ gap)) in *.
  set (i := length (done ++ gap)) in *.
  assert (M : match_at STMT_RE p (render cs ++ post) i
              = Some {| m_start := i; m_end := i + length (render cs);
                        m_group := None |}).
  { rewrite Er.
    replace ((cs_call cs ++ cs_ws1 cs ++ cs_function cs ++ body ++ [dot])
             ++ post)
      with (cs_call cs ++ cs_ws1 cs ++ cs_function cs ++ body ++ dot :: post)
      by (rewrite <- !app_assoc; reflexivity).
    now apply stmt_match_general. }
  pose proof (render_length cs) as Hlen.
  destruct (render cs ++ post) as [|c t] eqn:Et.
  { destruct (render cs); [simpl in Hlen; lia | discriminate]. }
  cbn [finditer_from]. rewrite M. cbn [m_end].
  exists L1, (finditer_from STMT_RE (i + length (render cs) - S i)
                            (Some c) t (S i)).
  split; [reflexivity|]. split.
  - eapply Forall_impl; [|exact F1]. simpl. unfold i. intros m Hm.
    rewrite length_app. lia.
  - destruct (finditer_from_sorted STMT_RE t
                (i + length (render cs) - S i) (Some c) (S i)) as [F _].
    eapply Forall_impl; [|exact F]. simpl. intros m Hm. lia.
Qed.

(** What the loop body makes of that match. *)
Lemma occurrence_name (cs : call_stmt) (pre post : text)
      (g : option (nat * nat)) :
  well_formed cs = true ->
  called_name (pre ++ render cs ++ post)
              {| m_start := length pre;
                 m_end := length pre + length (render cs);
                 m_group := g |}
  = Some (Py.upper (cs_name cs)).
Proof.
  intros Hwf. unfold called_name. cbn [m_start m_end].
  rewrite slice_app_mid.
  destruct (fn_search_exact cs Hwf) as (nm & a & b & -> & -> & ->).
  reflexivity.
Qed.

Lemma occurrence_detect (cs : call_stmt) (pre post : text)
      (g : option (nat * nat)) :
  well_formed cs = true ->
  In (Py.upper (cs_name cs)) OBSOLETE_FMS ->
  detect (pre ++ render cs ++ post)
         {| m_start := length pre;
            m_end := length pre + length (render cs);
            m_group := g |}
  = Some (Py.upper (cs_name cs)).
Proof.
  intros Hwf Hin. unfold detect. rewrite occurrence_name by assumption.
  apply mem_In in Hin. now rewrite Hin.
Qed.

Lemma hits_of_starts (P : nat -> Prop) (src : text) (ms : list span) :
  Forall (fun m => P (m_start m)) ms ->
  Forall (fun h => P (m_start (fst h))) (hits_of src ms).
Proof.
  intros F. rewrite Forall_forall in *. intros h Hh.
  apply hits_of_in in Hh. destruct Hh as [Hin _]. auto.
Qed.

Lemma filter_none {A : Type} (f : A -> bool) (l : list A) :
  Forall (fun x => f x = false) l -> filter f l = [].
Proof.
  induction 1 as [|x l Hx _ IH]; simpl; [reflexivity|]. now rewrite Hx.
Qed.

End Occurrence.

(** ** Order, bounds, batch and objects *)

Section Assembly.

Lemma hits_of_sorted (src : text) (ms : list span) :
  StronglySorted (fun a b => m_start a < m_start b) ms ->
  StronglySorted (fun a b => m_start (fst a) < m_start (fst b))
                 (hits_of src ms).
Proof.
  induction 1 as [|m ms _ IH F]; simpl; [constructor|].
  fold (hits_of src ms).
  destruct (detect src m) as [fm|]; simpl; [|exact IH].
  constructor; [exact IH|].
  apply (hits_of_starts (fun n => m_start m < n)). exact F.
Qed.

Lemma hits_sorted (src : text) :
  StronglySorted (fun a b => m_start (fst a) < m_start (fst b)) (hits src).
Proof.
  apply hits_of_sorted.
  apply (finditer_from_sorted STMT_RE src 0 None 0).
Qed.

Lemma hits_bounds (src : text) :
  Forall (fun h => m_start (fst h) <= m_end (fst h)
                   /\ m_end (fst h) <= length src) (hits src).
Proof.
  pose proof (finditer_from_bounds STMT_RE src 0 None 0) as F.
  rewrite Forall_forall in *. intros h Hh.
  apply hits_of_in in Hh. destruct Hh as [Hin _].
  specialize (F _ Hin). simpl in F. lia.
Qed.

(** Statement matches are never empty. *)
Lemma stmt_match_nonempty (p : option ascii) (t : text) (i : nat)
      (m : span) :
  match_at STMT_RE p t i = Some m -> m_start m < m_end m.
Proof.
  intros E. apply match_at_reaches in E. destruct E as (st' & R & ->).
  apply stmt_shape in R. destruct R as (w & s1 & _ & _ & Ep & _).
  simpl in *. lia.
Qed.

Lemma finditer_stmt_nonempty (t : text) :
  forall skip p i,
    Forall (fun m => m_start m < m_end m) (finditer_from STMT_RE skip p t i).
Proof.
  induction t as [|c t IH]; intros skip p i; simpl.
  - destruct skip; [|constructor].
    destruct (match_at STMT_RE p [] i) eqn:E; [|constructor].
    constructor; [|constructor]. eapply stmt_match_nonempty, E.
  - destruct skip; [|apply IH].
    destruct (match_at STMT_RE p (c :: t) i) eqn:E; [|apply IH].
    constructor; [|apply IH]. eapply stmt_match_nonempty, E.
Qed.

Lemma escape_nl_one_line (t : text) : Py.count_nl (Py.escape_nl t) = 0.
Proof.
  induction t as [|c t IH]; simpl; [reflexivity|].
  destruct (Ascii.eqb c nl) eqn:E; simpl; [exact IH|].
  now rewrite E.
Qed.

Lemma scan_rule_array_loop_filter (units : list Unit) :
  forall acc,
  exists out,
    scan_rule_array_loop units acc = Returned (acc ++ out)
    /\ Forall2 (fun u r => scan_unit u = Returned r
                           /\ truthy (findings r) = true)
               (filter flagged units) out.
Proof.
  induction units as [|u units IH]; intros acc; simpl.
  - exists []. rewrite app_nil_r. split; [reflexivity | constructor].
  - unfold flagged at 1. rewrite scan_unit_hits.
    destruct (truthy _) eqn:E.
    + destruct (IH (acc ++ [set_findings
                              (map (finding_of u) (hits (src_of u)))
                              (copy_unit u)])) as (out & Eo & F).
      eexists (_ :: out). split.
      * rewrite Eo, <- app_assoc. reflexivity.
      * constructor; [|exact F]. split; [apply scan_unit_hits | exact E].
    + apply IH.
Qed.

Lemma load_alloc_old (h : Heap.heap) (u : Unit) (r : Heap.ref) :
  r < length h -> Heap.load (fst (Heap.alloc h u)) r = Heap.load h r.
Proof. intros H. unfold Heap.load. simpl. now apply nth_error_app1. Qed.

Lemma load_update_other (f : Unit -> Unit) (h : Heap.heap) :
  forall r r', r <> r' ->
               Heap.load (Heap.update h r f) r' = Heap.load h r'.
Proof.
  unfold Heap.load.
  induction h as [|u h IH]; intros [|r] [|r'] N; simpl; try reflexivity.
  - contradiction.
  - apply IH. intros ->. now apply N.
Qed.

Lemma load_update_same (f : Unit -> Unit) (h : Heap.heap) :
  forall r u, Heap.load h r = Some u ->
              Heap.load (Heap.update h r f) r = Some (f u).
Proof.
  unfold Heap.load.
  induction h as [|x h IH]; intros [|r] u E; simpl in *; try discriminate.
  - now injection E as ->.
  - now apply IH.
Qed.

Lemma load_alloc_new (h : Heap.heap) (u : Unit) :
  Heap.load (fst (Heap.alloc h u)) (snd (Heap.alloc h u)) = Some u.
Proof.
  unfold Heap.load. simpl.
  rewrite nth_error_app2, Nat.sub_diag by lia. reflexivity.
Qed.

End Assembly.

(** ** Units of one statement, and units without findings *)

Section Whole.

Lemma single_statement (cs : call_stmt) :
  well_formed cs = true ->
  finditer STMT_RE (render cs)
  = [{| m_start := 0; m_end := length (render cs); m_group := None |}].
Proof.
  intros Hwf.
  destruct (occurrence_found cs [] [] [] Hwf (or_introl eq_refl)
                             eq_refl eq_refl) as (L1 & L2 & E & F1 & F2).
  simpl in E, F1, F2. rewrite app_nil_r in E.
  destruct L1 as [|m1 L1].
  2:{ inversion F1; subst. lia. }
  simpl in E. rewrite E. f_equal.
  destruct L2 as [|m2 L2]; [reflexivity|]. exfalso.
  pose proof (finditer_from_bounds STMT_RE (render cs) 0 None 0) as B.
  pose proof (finditer_stmt_nonempty (render cs) 0 None 0) as N.
  fold (finditer STMT_RE (render cs)) in B, N. rewrite E in B, N.
  inversion B as [|? ? _ B']; subst. inversion B' as [|? ? Hb _]; subst.
  inversion N as [|? ? _ N']; subst. inversion N' as [|? ? Hn _]; subst.
  inversion F2 as [|? ? Hf _]; subst. simpl in Hb. lia.
Qed.




Lemma escape_nl_escaped (t : text) : newlines_escaped t (Py.escape_nl t).
Proof.
  induction t as [|c t IH]; simpl; [constructor|].
  destruct (Ascii.eqb c nl) eqn:E; simpl.
  - apply Ascii.eqb_eq in E. subst c. now constructor.
  - apply Ascii.eqb_neq in E. now constructor.
Qed.

Lemma flagged_has_findings (u : Unit) : flagged u = has_findings u.
Proof.
  unfold flagged, has_findings. rewrite scan_unit_hits, scan_findings_hits.
  simpl. destruct (map _ _); reflexivity.
Qed.

Lemma truthy_nonempty (o : option (list Finding)) :
  truthy o = true -> exists f fs, o = Some (f :: fs).
Proof.
  destruct o as [[|f fs]|]; simpl; try discriminate. eauto.
Qed.

End Whole.

(** * The properties of the specification *)

(** C1, with the ending line the code computes: on the scenario unit -- a
    call of WS_UPLOAD whose statement runs over two lines,
    [start_line = 0] -- scan-one returns exactly one finding; its message
    mentions WS_UPLOAD, its suggestion is the upload template, its starting
    line is 1 and its ending line is 3: the snippet holds both lines, so the
    line count added to the starting line is 2. *)
Theorem C1_scenario_as_coded :
  exists f,
    scan_unit scenario_unit
    = Returned (set_findings [f] (copy_unit scenario_unit))
    /\ Py.contains (T "WS_UPLOAD") (message f) = true
    /\ suggestion f = upload_suggestion
    /\ starting_line f = 1%Z
    /\ ending_line f = 3%Z.
Proof.
  eexists. split; [vm_compute; reflexivity|].
  repeat split; vm_compute; reflexivity.
Qed.

(** C1 with an ending line of 2 does not hold: on the scenario unit no
    single finding has starting line 1 and ending line 2. *)
Lemma C1_counterexample :
  ~ (exists f,
        scan_unit scenario_unit
        = Returned (set_findings [f] (copy_unit scenario_unit))
        /\ starting_line f = 1%Z
        /\ ending_line f = 2%Z).
Proof.
  intros (f & E & _ & H).
  vm_compute in E. injection E as E. subst f.
  vm_compute in H. discriminate.
Qed.

(** C2: every finding of a unit comes from a flagged statement, in order,
    and for each one [starting_line] is the unit's [start_line] plus the
    number of newlines before the statement's start offset plus 1, and
    [ending_line] is [start_line] plus that line number plus the number of
    newlines in the snippet line plus 1.  In particular, with
    [start_line = 100] and two newlines before the statement,
    [starting_line = 103]. *)
Theorem C2_line_arithmetic (u : Unit) :
  exists fs,
    scan_findings u = Returned fs
    /\ Forall2
         (fun h f =>
            let src := src_of u in
            let line_in_block :=
              (Z.of_nat (Py.count_nl (Py.slice 0 (m_start (fst h)) src))
               + 1)%Z in
            let snippet_line :=
              get_line_snippet src (m_start (fst h)) (m_end (fst h)) in
            starting_line f = (start_line_value u + line_in_block)%Z
            /\ ending_line f
               = (start_line_value u + line_in_block
                  + (Z.of_nat (Py.count_nl snippet_line) + 1))%Z
            /\ (start_line u = Some 100%Z ->
                Py.count_nl (Py.slice 0 (m_start (fst h)) src) = 2 ->
                starting_line f = 103%Z))
         (hits (src_of u)) fs.
Proof.
  eexists. split; [apply scan_findings_hits|].
  induction (hits (src_of u)) as [|h l IH]; simpl; constructor; [|exact IH].
  unfold finding_of, make_finding, base_of, start_line_value. simpl.
  rewrite or_int_value, !Nat2Z.inj_add. simpl Z.of_nat.
  repeat split.
  intros -> ->. reflexivity.
Qed.

Lemma C2_line_arithmetic_witness :
  exists f,
    scan_findings
      (example_unit 100
         (T "REPORT z." ++ [nl] ++ T "DATA x." ++ [nl]
          ++ T "CALL FUNCTION 'UPLOAD'."))
    = Returned [f]
    /\ starting_line f = 103%Z.
Proof.
  destruct (C2_line_arithmetic
              (example_unit 100
                 (T "REPORT z." ++ [nl] ++ T "DATA x." ++ [nl]
                  ++ T "CALL FUNCTION 'UPLOAD'.")))
    as (fs & E & F).
  vm_compute in E. injection E as <-.
  eexists. split; [reflexivity|].
  inversion F as [|h f l l' (_ & _ & H) _ Eh]; subst.
  apply H; reflexivity.
Defined.

(** C4: scan-batch never raises and returns, in the original relative
    order, the scan-one results of exactly those units for which scan-one
    produces at least one finding: the output lines up, one for one, with
    the input units that have a finding, each output unit is the scan-one
    result of its input unit, and its findings list is not empty; a unit
    with no finding is left out. *)
Theorem C4_batch_filter (units : list Unit) :
  exists out,
    scan_rule_array units = Returned out
    /\ Forall2 (fun u r => scan_unit u = Returned r
                           /\ exists f fs, findings r = Some (f :: fs))
               (filter has_findings units) out.
Proof.
  destruct (scan_rule_array_loop_filter units []) as (out & E & F).
  exists out. split; [exact E|].
  rewrite <- (filter_ext _ _ flagged_has_findings).
  eapply Forall2_impl; [|exact F].
  intros u r [Hu Ht]. split; [exact Hu | now apply truthy_nonempty].
Qed.

(** C5: for every finding, the unit text splits into what precedes the
    snippet, the raw snippet and what follows it, such that: the part before
    is empty or ends with a newline; the part after is empty or starts with
    a newline; the snippet covers the matched statement; there is no newline
    between the start of the snippet and the start of the statement, nor
    between the end of the statement and the end of the snippet; and the
    [snippet] field is the raw snippet with each newline replaced by
    backslash-n, hence a single line. *)
Theorem C5_snippet_fidelity (u : Unit) :
  exists fs,
    scan_findings u = Returned fs
    /\ Forall2
         (fun h f =>
            let src := src_of u in
            let s := m_start (fst h) in
            let e := m_end (fst h) in
            exists pre raw post,
              src = pre ++ raw ++ post
              /\ newlines_escaped raw (snippet f)
              /\ Py.count_nl (snippet f) = 0
              /\ (pre = [] \/ exists pre', pre = pre' ++ [nl])
              /\ (post = [] \/ exists post', post = nl :: post')
              /\ length pre <= s
              /\ e <= length pre + length raw
              /\ Py.count_nl (Py.slice (length pre) s src) = 0
              /\ Py.count_nl (Py.slice e (length pre + length raw) src) = 0)
         (hits (src_of u)) fs.
Proof.
  eexists. split; [apply scan_findings_hits|].
  pose proof (hits_bounds (src_of u)) as B.
  induction B as [|h l [Hse He] _ IH]; simpl; constructor; [|exact IH].
  destruct (get_line_snippet_lines (src_of u) _ _ Hse He)
    as (pre & raw & post & Et & Es & Hp & Hq & L1 & L2 & N1 & N2).
  exists pre, raw, post.
  unfold finding_of, make_finding. cbn [snippet]. rewrite Es.
  repeat split; try assumption;
    [apply escape_nl_escaped | apply escape_nl_one_line].
Qed.

(** C7: every finding comes from a statement whose upper-cased name is on
    the list, and its suggestion is the upload template when that name
    contains UPLOAD and the download template otherwise; the two templates
    are constants, the first naming GUI_UPLOAD and its object-oriented
    alternative, the second GUI_DOWNLOAD; of the four listed names the two
    upload ones select the first and the two download ones the second. *)
Theorem C7_suggestion_selection (u : Unit) :
  (exists fs,
      scan_findings u = Returned fs
      /\ Forall2
           (fun h f =>
              In (snd h) OBSOLETE_FMS
              /\ suggestion f
                 = (if Py.contains (T "UPLOAD") (snd h)
                    then upload_suggestion else download_suggestion))
           (hits (src_of u)) fs)
  /\ Py.contains (T "CALL FUNCTION 'GUI_UPLOAD'") upload_suggestion = true
  /\ Py.contains (T "CL_GUI_FRONTEND_SERVICES=>GUI_UPLOAD") upload_suggestion
     = true
  /\ Py.contains (T "CALL FUNCTION 'GUI_DOWNLOAD'") download_suggestion = true
  /\ map (Py.contains (T "UPLOAD")) OBSOLETE_FMS = [true; false; true; false].
Proof.
  split; [|repeat split; vm_compute; reflexivity].
  eexists. split; [apply scan_findings_hits|].
  assert (H : Forall (fun h => In (snd h) OBSOLETE_FMS) (hits (src_of u))).
  { rewrite Forall_forall. intros h Hh. apply hits_of_in in Hh.
    destruct Hh as [_ Hd]. eapply detect_obsolete, Hd. }
  induction H as [|h l Hh _ IH]; simpl; constructor; [|exact IH].
  split; [exact Hh | reflexivity].
Qed.

(** C8: the findings of a unit are, one for one and in the same order, its
    flagged statements, and these come by strictly increasing start offset:
    findings are listed in textual order. *)
Theorem C8_order_preserved (u : Unit) :
  exists fs,
    scan_findings u = Returned fs
    /\ fs = map (finding_of u) (hits (src_of u))
    /\ StronglySorted (fun a b => m_start (fst a) < m_start (fst b))
                      (hits (src_of u)).
Proof.
  eexists. split; [apply scan_findings_hits|].
  split; [reflexivity | apply hits_sorted].
Qed.

(** C9: called on a reference to a unit, scan-one returns a reference to a
    new object, different from the argument; the argument object and every
    other object of the heap are as before the call; the new object has the
    fields of the argument except [findings], and is the result of
    scan-one. *)
Theorem C9_input_not_mutated (h : Heap.heap) (r : Heap.ref) (u : Unit) :
  Heap.load h r = Some u ->
  exists h' r' out,
    scan_unit_obj h r = Some (Returned (h', r'))
    /\ r' <> r
    /\ Heap.load h r' = None
    /\ Heap.load h' r = Some u
    /\ (forall r0, r0 < length h -> Heap.load h' r0 = Heap.load h r0)
    /\ Heap.load h' r' = Some out
    /\ scan_unit u = Returned out
    /\ pgm_name out = pgm_name u /\ inc_name out = inc_name u
    /\ type out = type u /\ name out = name u
    /\ start_line out = start_line u /\ end_line out = end_line u
    /\ code out = code u.
Proof.
  intros Hl.
  assert (Hr : r < length h).
  { apply nth_error_Some. unfold Heap.load in Hl. now rewrite Hl. }
  unfold scan_unit_obj. rewrite Hl, scan_findings_hits.
  set (fs := map (finding_of u) (hits (src_of u))).
  exists (Heap.update (h ++ [copy_unit u]) (length h) (set_findings fs)),
    (length h), (set_findings fs (copy_unit u)).
  split; [reflexivity|].
  split; [lia|].
  split; [apply nth_error_None; lia|].
  assert (Hold : forall r0, r0 < length h ->
            Heap.load (Heap.update (h ++ [copy_unit u]) (length h)
                                   (set_findings fs)) r0
            = Heap.load h r0).
  { intros r0 H0. rewrite load_update_other by lia.
    apply (load_alloc_old h (copy_unit u) r0 H0). }
  split; [now rewrite Hold|].
  split; [exact Hold|].
  split.
  { apply load_update_same. apply (load_alloc_new h (copy_unit u)). }
  split; [apply scan_unit_hits|].
  repeat split.
Qed.

Lemma C9_input_not_mutated_witness :
  exists h' r' out,
    scan_unit_obj [scenario_unit] 0 = Some (Returned (h', r'))
    /\ r' <> 0
    /\ Heap.load h' 0 = Some scenario_unit
    /\ Heap.load h' r' = Some out
    /\ code out = code scenario_unit.
Proof.
  destruct (C9_input_not_mutated [scenario_unit] 0 scenario_unit eq_refl)
    as (h' & r' & out & E & N & _ & L & _ & Lo & _ & _ & _ & _ & _ & _ & _ & C).
  exists h', r', out. repeat split; assumption.
Defined.

(** C3, under the condition the scanner needs: a call statement of one of
    the four listed routines -- name in single quotes, in double quotes or
    bare, in any case -- that starts at a word boundary, with no other
    invocation keyword between the previous statement terminator (or the
    start of the unit) and itself, is found by scan-one, which lists exactly
    one flagged statement starting inside it: the statement itself, under
    the upper-cased name. *)
Theorem C3_detected_once (u : Unit) (cs : call_stmt) (done gap post : text) :
  code u = Some (done ++ gap ++ render cs ++ post) ->
  well_formed cs = true ->
  paired cs = true ->
  In (Py.upper (cs_name cs)) OBSOLETE_FMS ->
  terminated done ->
  no_invocation (last_of None done) gap (render cs ++ post) = true ->
  word_opt (last_of None (done ++ gap)) = false ->
  exists fs,
    scan_findings u = Returned fs
    /\ fs = map (finding_of u) (hits (src_of u))
    /\ filter (within (length (done ++ gap))
                      (length (done ++ gap) + length (render cs)))
              (hits (src_of u))
       = [({| m_start := length (done ++ gap);
              m_end := length (done ++ gap) + length (render cs);
              m_group := None |},
           Py.upper (cs_name cs))].
Proof.
  intros Hc Hwf _ Hin Hdone Hgap Hb.
  eexists. split; [apply scan_findings_hits|]. split; [reflexivity|].
  unfold src_of. rewrite Hc, or_text_value.
  destruct (occurrence_found cs done gap post Hwf Hdone Hgap Hb)
    as (L1 & L2 & E & F1 & F2).
  unfold hits. rewrite E, hits_of_app. simpl hits_of.
  fold (hits_of (done ++ gap ++ render cs ++ post) L2).
  replace (done ++ gap ++ render cs ++ post)
    with ((done ++ gap) ++ render cs ++ post) at 2
    by now rewrite <- app_assoc.
  rewrite (occurrence_detect cs (done ++ gap) post None Hwf Hin).
  pose proof (render_length cs) as Hlen.
  rewrite filter_app. simpl filter.
  rewrite !filter_none.
  - simpl. unfold within. simpl.
    rewrite Nat.leb_refl.
    replace (_ <? _) with true by (symmetry; apply Nat.ltb_lt; lia).
    reflexivity.
  - apply (hits_of_starts
             (fun n => (length (done ++ gap) <=? n)
                       && (n <? length (done ++ gap) + length (render cs))
                       = false)).
    eapply Forall_impl; [|exact F2]. simpl. intros m Hm.
    apply andb_false_iff. right. apply Nat.ltb_ge. lia.
  - apply (hits_of_starts
             (fun n => (length (done ++ gap) <=? n)
                       && (n <? length (done ++ gap) + length (render cs))
                       = false)).
    eapply Forall_impl; [|exact F1]. simpl. intros m Hm.
    apply andb_false_iff. left. apply Nat.leb_gt. lia.
Qed.

Lemma C3_detected_once_witness :
  exists fs,
    scan_findings
      (example_unit 0
         (T "WRITE x." ++ [nl]
          ++ render (upload_stmt (Some dquote) (Some dquote))
          ++ T " CALL FUNCTION download."))
    = Returned fs
    /\ length fs = 2.
Proof.
  destruct (C3_detected_once
              (example_unit 0
                 (T "WRITE x." ++ [nl]
                  ++ render (upload_stmt (Some dquote) (Some dquote))
                  ++ T " CALL FUNCTION download."))
              (upload_stmt (Some dquote) (Some dquote))
              (T "WRITE x.") [nl] (T " CALL FUNCTION download.")
              eq_refl eq_refl eq_refl (or_introl eq_refl)
              (or_intror (ex_intro _ (T "WRITE x") eq_refl))
              eq_refl eq_refl)
    as (fs & E & _ & _).
  exists fs. split; [exact E|].
  vm_compute in E. injection E as <-. reflexivity.
Defined.

(** C3 does not hold of every occurrence: in the unit below a comment line
    mentions the keyword, and the call of WS_UPLOAD on the next line,
    although well formed and single-quoted, yields no finding. *)
Lemma C3_counterexample :
  well_formed (upload_stmt (Some squote) (Some squote)) = true
  /\ paired (upload_stmt (Some squote) (Some squote)) = true
  /\ In (Py.upper (cs_name (upload_stmt (Some squote) (Some squote))))
        OBSOLETE_FMS
  /\ code commented_unit
     = Some ((T "* call function next" ++ [nl])
             ++ render (upload_stmt (Some squote) (Some squote)))
  /\ scan_findings commented_unit = Returned [].
Proof.
  split; [reflexivity|]. split; [reflexivity|].
  split; [simpl; tauto|].
  split; [vm_compute; reflexivity|].
  vm_compute. reflexivity.
Qed.



(** C10: the quotes around the routine name are optional one by one.  For a
    call statement whose opening and closing quote are each absent, single
    or double, in any combination, the statement is found whole, the name
    pattern extracts the routine name, and when the upper-cased name is on
    the list a unit made of that statement gets exactly one finding, which
    names it. *)
Theorem C10_quotes_independent (u : Unit) (cs : call_stmt) :
  well_formed cs = true ->
  code u = Some (render cs) ->
  finditer STMT_RE (render cs)
  = [{| m_start := 0; m_end := length (render cs); m_group := None |}]
  /\ called_name (render cs)
                 {| m_start := 0; m_end := length (render cs);
                    m_group := None |}
     = Some (Py.upper (cs_name cs))
  /\ (In (Py.upper (cs_name cs)) OBSOLETE_FMS ->
      exists f,
        scan_findings u = Returned [f]
        /\ message f = make_message (Py.upper (cs_name cs))).
Proof.
  intros Hwf Hc.
  pose proof (occurrence_name cs [] [] None Hwf) as Hn.
  simpl in Hn. rewrite app_nil_r in Hn.
  split; [now apply single_statement|]. split; [exact Hn|].
  intros Hin. eexists. split.
  - rewrite scan_findings_hits. unfold src_of. rewrite Hc, or_text_value.
    unfold hits. rewrite (single_statement cs Hwf). simpl.
    unfold detect. rewrite Hn.
    apply mem_In in Hin. rewrite Hin. reflexivity.
  - reflexivity.
Qed.

Lemma C10_quotes_independent_witness :
  (exists f,
      scan_findings
        (example_unit 0 (render (upload_stmt (Some squote) None)))
      = Returned [f]
      /\ message f = make_message (T "WS_UPLOAD"))
  /\ (exists f,
         scan_findings
           (example_unit 0 (render (upload_stmt (Some squote) (Some dquote))))
         = Returned [f]
         /\ message f = make_message (T "WS_UPLOAD")).
Proof.
  split.
  - apply (C10_quotes_independent
             (example_unit 0 (render (upload_stmt (Some squote) None)))
             (upload_stmt (Some squote) None) eq_refl eq_refl).
    simpl. tauto.
  - apply (C10_quotes_independent
             (example_unit 0
                (render (upload_stmt (Some squote) (Some dquote))))
             (upload_stmt (Some squote) (Some dquote)) eq_refl eq_refl).
    simpl. tauto.
Defined.

(** * Further properties of the scanner *)

Section MoreFacts.

Lemma count_nl_app (a b : text) :
  Py.count_nl (a ++ b) = Py.count_nl a + Py.count_nl b.
Proof.
  induction a as [|c a IH]; simpl; [reflexivity|].
  destruct (Ascii.eqb c nl); simpl; now rewrite IH.
Qed.

Lemma count_dot_app (a b : text) :
  count_dot (a ++ b) = count_dot a + count_dot b.
Proof.
  induction a as [|c a IH]; simpl; [reflexivity|].
  destruct (Ascii.eqb c dot); simpl; now rewrite IH.
Qed.

Lemma count_dot_none (w : text) :
  Forall (fun x => not_dot x = true) w -> count_dot w = 0.
Proof.
  induction 1 as [|c w Hc _ IH]; simpl; [reflexivity|].
  unfold not_dot in Hc. apply negb_true_iff in Hc. now rewrite Hc.
Qed.

Lemma text_split3 (t : text) (s e : nat) :
  s <= e -> e <= length t ->
  t = firstn s t ++ Py.slice s e t ++ skipn e t.
Proof.
  intros Hse He. unfold Py.slice.
  rewrite <- (firstn_skipn s t) at 1. f_equal.
  rewrite <- (firstn_skipn (e - s) (skipn s t)) at 1. f_equal.
  rewrite skipn_skipn. f_equal. lia.
Qed.

(** The snippet is the span itself, with the rest of its first line before
    it and the rest of its last line after it. *)
Lemma get_line_snippet_around (t : text) (s e : nat) :
  s <= e -> e <= length t ->
  exists B A,
    get_line_snippet t s e = B ++ Py.slice s e t ++ A
    /\ Py.count_nl B = 0 /\ Py.count_nl A = 0.
Proof.
  intros Hse He.
  destruct (split_before t s ltac:(lia)) as (P & B & EP & _ & HB & LP).
  destruct (split_after t e) as (A & Q & EQ & _ & HA & LQ).
  exists B, A. split; [|auto].
  pose proof (text_split3 t s e Hse He) as Et.
  rewrite EP, EQ in Et.
  remember (Py.slice s e t) as M eqn:EM.
  assert (Et' : t = P ++ (B ++ M ++ A) ++ Q)
    by (rewrite Et at 1; now rewrite <- !app_assoc).
  assert (Lt : length t = length P + length (B ++ M ++ A) + length Q).
  { rewrite Et' at 1. rewrite !length_app. lia. }
  unfold get_line_snippet. rewrite LP, LQ.
  transitivity (Py.slice (length P) (length P + length (B ++ M ++ A))
                         (P ++ (B ++ M ++ A) ++ Q)).
  - replace (length t - length Q) with (length P + length (B ++ M ++ A))
      by lia.
    now rewrite <- Et'.
  - apply slice_app_mid.
Qed.

Lemma count_nl_zero_index (t : text) :
  Py.count_nl t = 0 -> forall i, Py.index_nl t i = None.
Proof.
  induction t as [|c t IH]; simpl; intros H i; [reflexivity|].
  destruct (Ascii.eqb c nl); [discriminate | now apply IH].
Qed.

Lemma count_nl_zero_rindex (t : text) :
  Py.count_nl t = 0 -> forall i, Py.rindex_nl t i = None.
Proof.
  induction t as [|c t IH]; simpl; intros H i; [reflexivity|].
  destruct (Ascii.eqb c nl); [discriminate|]. now rewrite IH.
Qed.

Lemma count_nl_firstn (t : text) :
  forall n, Py.count_nl (firstn n t) <= Py.count_nl t.
Proof.
  induction t as [|c t IH]; intros [|n]; simpl; try lia.
  specialize (IH n). destruct (Ascii.eqb c nl); lia.
Qed.

Lemma count_nl_skipn (t : text) :
  forall n, Py.count_nl (skipn n t) <= Py.count_nl t.
Proof.
  induction t as [|c t IH]; intros [|n]; simpl; try lia.
  specialize (IH n). destruct (Ascii.eqb c nl); lia.
Qed.

Lemma count_nl_firstn_mono (t : text) (a b : nat) :
  a <= b -> Py.count_nl (firstn a t) <= Py.count_nl (firstn b t).
Proof.
  intros H. replace a with (Nat.min a b) by lia.
  rewrite <- firstn_firstn. apply count_nl_firstn.
Qed.

(** On a text of one line the snippet is the whole text, whatever the
    offsets. *)
Lemma get_line_snippet_one_line (t : text) (s e : nat) :
  Py.count_nl t = 0 -> get_line_snippet t s e = t.
Proof.
  intros H. unfold get_line_snippet, Py.rfind_nl, Py.find_nl.
  rewrite count_nl_zero_rindex, count_nl_zero_index.
  - unfold Py.slice. simpl. rewrite Nat.sub_0_r. apply firstn_all.
  - pose proof (count_nl_skipn t e). lia.
  - pose proof (count_nl_firstn t s). lia.
Qed.

(** Where a match of [finditer] sits in the text. *)
Lemma finditer_from_in (r : regex) (t : text) :
  forall skip p i m,
    In m (finditer_from r skip p t i) ->
    exists a b,
      t = a ++ b /\ skip <= length a
      /\ match_at r (last_of p a) b (i + length a) = Some m.
Proof.
  induction t as [|c t IH]; intros skip p i m; simpl.
  - destruct skip; [|contradiction].
    destruct (match_at r p [] i) eqn:E; [|contradiction].
    intros [<-|[]]. exists [], []. simpl. rewrite Nat.add_0_r. auto.
  - assert (Hrec : forall n,
               In m (finditer_from r n (Some c) t (S i)) ->
               exists a b,
                 c :: t = a ++ b /\ S n <= length a
                 /\ match_at r (last_of p a) b (i + length a) = Some m).
    { intros n H. destruct (IH _ _ _ _ H) as (a & b & -> & Hn & Hm).
      exists (c :: a), b. simpl.
      replace (i + S (length a)) with (S i + length a) by lia.
      repeat split; [lia | exact Hm]. }
    destruct skip as [|n].
    + destruct (match_at r p (c :: t) i) as [m0|] eqn:E.
      * intros [<-|H].
        -- exists [], (c :: t). simpl. rewrite Nat.add_0_r.
           repeat split; [lia | exact E].
        -- destruct (Hrec _ H) as (a & b & Ha & _ & Hm).
           exists a, b. repeat split; [exact Ha | lia | exact Hm].
      * intros H. destruct (Hrec _ H) as (a & b & Ha & _ & Hm).
        exists a, b. repeat split; [exact Ha | lia | exact Hm].
    + intros H. destruct (Hrec _ H) as (a & b & Ha & Hn & Hm).
      exists a, b. repeat split; [exact Ha | lia | exact Hm].
Qed.

(** Matches do not overlap. *)
Lemma finditer_from_disjoint (r : regex) (t : text) :
  forall skip p i,
    StronglySorted (fun a b => m_end a <= m_start b)
                   (finditer_from r skip p t i).
Proof.
  induction t as [|c t IH]; intros skip p i; simpl.
  - destruct skip; [|constructor].
    destruct (match_at r p [] i); repeat constructor.
  - destruct skip as [|n]; [|apply IH].
    destruct (match_at r p (c :: t) i) as [m|] eqn:E; [|apply IH].
    constructor; [apply IH|].
    destruct (finditer_from_sorted r t (m_end m - S i) (Some c) (S i))
      as [F _].
    eapply Forall_impl; [|exact F]. simpl. intros; lia.
Qed.

(** Each statement found uses up a terminator of its own. *)
Lemma finditer_from_count (t : text) :
  forall skip p i,
    length (finditer_from STMT_RE skip p t i) <= count_dot (skipn skip t).
Proof.
  induction t as [|c t IH]; intros skip p i.
  - simpl. destruct skip; simpl; [|lia].
    destruct (match_at STMT_RE p [] i) eqn:E; [|simpl; lia].
    apply stmt_match_needs in E. destruct E as [_ E]. discriminate.
  - cbn [finditer_from]. destruct skip as [|n]; [|apply IH].
    assert (H0 : length (finditer_from STMT_RE 0 (Some c) t (S i))
                 <= count_dot (c :: t)).
    { specialize (IH 0 (Some c) (S i)). simpl in *.
      destruct (Ascii.eqb c dot); lia. }
    destruct (match_at STMT_RE p (c :: t) i) as [m|] eqn:E; [|exact H0].
    apply match_at_reaches in E. destruct E as (st' & R & ->).
    apply stmt_shape in R. destruct R as (w & s1 & Er & Fw & Ep & _ & _).
    simpl in Er, Ep. cbn [m_end length skipn].
    specialize (IH (pos st' - S i) (Some c) (S i)).
    assert (Es : skipn (pos st' - S i) t = rest st').
    { destruct w as [|x w]; simpl in Er; injection Er as -> ->.
      - simpl in Ep. replace (pos st' - S i) with 0 by lia. reflexivity.
      - simpl in Ep. replace (pos st' - S i) with (length (w ++ [dot]))
          by (rewrite length_app; simpl; lia).
        change (w ++ dot :: rest st') with (w ++ [dot] ++ rest st').
        rewrite app_assoc, skipn_app, skipn_all, Nat.sub_diag.
        reflexivity. }
    rewrite Es in IH. rewrite Er, count_dot_app, (count_dot_none w Fw).
    simpl. lia.
Qed.

Lemma hits_of_length (src : text) (ms : list span) :
  length (hits_of src ms) <= length ms.
Proof.
  induction ms as [|m ms IH]; simpl; [lia|]. fold (hits_of src ms).
  destruct (detect src m); simpl; lia.
Qed.

End MoreFacts.

Section MoreAssembly.

Lemma slice_from_0 (n : nat) (t : text) : Py.slice 0 n t = firstn n t.
Proof. unfold Py.slice. now rewrite Nat.sub_0_r. Qed.

Lemma scan_unit_ignores_findings (u : Unit) (fs0 : list Finding) :
  scan_unit (set_findings fs0 u) = scan_unit u.
Proof. rewrite !scan_unit_hits. reflexivity. Qed.

Lemma scan_unit_fixed (u r : Unit) :
  scan_unit u = Returned r -> scan_unit r = Returned r.
Proof.
  rewrite scan_unit_hits. intros [= <-].
  rewrite scan_unit_hits. reflexivity.
Qed.

Lemma sorted_map {A B : Type} (R : A -> A -> Prop) (R' : B -> B -> Prop)
      (f : A -> B) (l : list A) :
  (forall a b, R a b -> R' (f a) (f b)) ->
  StronglySorted R l -> StronglySorted R' (map f l).
Proof.
  intros H. induction 1 as [|a l _ IH F]; simpl; constructor; [exact IH|].
  rewrite Forall_map. eapply Forall_impl; [|exact F]. auto.
Qed.

(** The line arithmetic of a finding in terms of the statement alone. *)
Lemma finding_lines (u : Unit) (h : span * text) :
  m_start (fst h) <= m_end (fst h) ->
  m_end (fst h) <= length (src_of u) ->
  let before := Py.count_nl (firstn (m_start (fst h)) (src_of u)) in
  let inside :=
    Py.count_nl (Py.slice (m_start (fst h)) (m_end (fst h)) (src_of u)) in
  starting_line (finding_of u h)
  = (start_line_value u + Z.of_nat before + 1)%Z
  /\ ending_line (finding_of u h)
     = (starting_line (finding_of u h) + Z.of_nat inside + 1)%Z
  /\ before + inside <= Py.count_nl (src_of u).
Proof.
  intros Hse He. cbv zeta.
  destruct (get_line_snippet_around (src_of u) _ _ Hse He)
    as (B & A & Es & HB & HA).
  unfold finding_of, make_finding, base_of, start_line_value.
  cbn [starting_line ending_line].
  rewrite Es, !count_nl_app, HB, HA, or_int_value.
  rewrite !slice_from_0.
  rewrite !Nat2Z.inj_add. simpl Z.of_nat.
  split; [lia|]. split; [lia|].
  rewrite (text_split3 (src_of u) _ _ Hse He) at 3.
  rewrite !count_nl_app. lia.
Qed.

Lemma scan_rule_array_loop_app (a b : list Unit) :
  forall acc,
    scan_rule_array_loop (a ++ b) acc
    = match scan_rule_array_loop a acc with
      | Returned x => scan_rule_array_loop b x
      | Raised e => Raised e
      end.
Proof.
  induction a as [|u a IH]; intros acc; simpl; [reflexivity|].
  destruct (scan_unit u) as [r|e]; [|reflexivity].
  destruct (truthy (findings r)); apply IH.
Qed.

Lemma scan_rule_array_loop_acc (units : list Unit) :
  forall acc,
  exists out,
    scan_rule_array_loop units [] = Returned out
    /\ scan_rule_array_loop units acc = Returned (acc ++ out)
    /\ length out <= length units.
Proof.
  induction units as [|u units IH]; intros acc; simpl.
  - exists []. rewrite app_nil_r. auto.
  - rewrite scan_unit_hits.
    set (r := set_findings _ (copy_unit u)).
    destruct (truthy (findings r)).
    + destruct (IH [r]) as (out & E0 & E1 & L).
      destruct (IH (acc ++ [r])) as (out' & E0' & E1' & _).
      rewrite E0 in E0'. injection E0' as <-.
      exists (r :: out). split; [exact E1|]. split.
      * rewrite E1', <- app_assoc. reflexivity.
      * simpl. lia.
    + destruct (IH acc) as (out & E0 & E1 & L).
      exists out. repeat split; [exact E0 | exact E1 | lia].
Qed.

Lemma scan_rule_array_loop_kept (l : list Unit) :
  Forall (fun r => scan_unit r = Returned r
                   /\ truthy (findings r) = true) l ->
  forall acc, scan_rule_array_loop l acc = Returned (acc ++ l).
Proof.
  induction 1 as [|r l [Hr Ht] _ IH]; intros acc; simpl.
  - now rewrite app_nil_r.
  - rewrite Hr, Ht, IH, <- app_assoc. reflexivity.
Qed.

End MoreAssembly.

(** X1: scan-one takes no account of the findings its argument already
    carries, and scanning its own result again gives that result back. *)
Theorem X1_rescan_is_stable (u : Unit) :
  (forall fs0, scan_unit (set_findings fs0 u) = scan_unit u)
  /\ (forall r, scan_unit u = Returned r -> scan_unit r = Returned r).
Proof.
  split; [apply scan_unit_ignores_findings | apply scan_unit_fixed].
Qed.

Lemma X1_rescan_is_stable_witness :
  exists r,
    scan_unit scenario_unit = Returned r /\ scan_unit r = Returned r.
Proof.
  destruct (scan_unit scenario_unit) as [r|e] eqn:E.
  - exists r. split; [reflexivity|].
    apply (proj2 (X1_rescan_is_stable scenario_unit) r E).
  - vm_compute in E. discriminate.
Defined.

(** X2: every finding carries the identity of its unit (program, include,
    type and block name), the issue type ObsoleteUploadDownload, the
    severity error, and a message naming one of the four listed routines
    in upper case. *)
Theorem X2_finding_fields (u : Unit) :
  exists fs,
    scan_findings u = Returned fs
    /\ Forall (fun f =>
                 prog_name f = pgm_name u /\ incl_name f = inc_name u
                 /\ types f = type u /\ blockname f = name u
                 /\ issues_type f = T "ObsoleteUploadDownload"
                 /\ severity f = T "error"
                 /\ exists fm, In fm OBSOLETE_FMS
                               /\ message f = make_message fm) fs.
Proof.
  eexists. split; [apply scan_findings_hits|].
  rewrite Forall_map, Forall_forall. intros h Hh.
  apply hits_of_in in Hh. destruct Hh as [_ Hd].
  repeat split. exists (snd h). split; [|reflexivity].
  eapply detect_obsolete, Hd.
Qed.

(** X3: the lines of a finding lie in the unit: its starting line is at
    least [start_line + 1], its ending line is strictly after its starting
    line, and at most [start_line] plus the number of newlines of the code
    plus 2. *)
Theorem X3_line_bounds (u : Unit) :
  exists fs,
    scan_findings u = Returned fs
    /\ Forall (fun f =>
                 (start_line_value u + 1 <= starting_line f)%Z
                 /\ (starting_line f < ending_line f)%Z
                 /\ (ending_line f
                     <= start_line_value u
                        + Z.of_nat (Py.count_nl (src_of u)) + 2)%Z) fs.
Proof.
  eexists. split; [apply scan_findings_hits|].
  rewrite Forall_map.
  eapply Forall_impl; [|apply (hits_bounds (src_of u))].
  intros h [Hse He].
  destruct (finding_lines u h Hse He) as (E1 & E2 & L).
  rewrite E2, E1. lia.
Qed.

(** X4: the ending line of a finding is its starting line plus the number
    of newlines inside the matched statement plus 1; a statement written on
    one line gets an ending line one after its starting line. *)
Theorem X4_ending_line_by_statement (u : Unit) :
  exists fs,
    scan_findings u = Returned fs
    /\ Forall2
         (fun h f =>
            ending_line f
            = (starting_line f
               + Z.of_nat (Py.count_nl (Py.slice (m_start (fst h))
                                                 (m_end (fst h)) (src_of u)))
               + 1)%Z)
         (hits (src_of u)) fs.
Proof.
  eexists. split; [apply scan_findings_hits|].
  pose proof (hits_bounds (src_of u)) as B.
  induction B as [|h l [Hse He] _ IH]; simpl; constructor; [|exact IH].
  apply (finding_lines u h Hse He).
Qed.

(** X5: along the list of findings the starting lines never decrease. *)
Theorem X5_starting_lines_ascend (u : Unit) :
  exists fs,
    scan_findings u = Returned fs
    /\ StronglySorted (fun f g => (starting_line f <= starting_line g)%Z) fs.
Proof.
  eexists. split; [apply scan_findings_hits|].
  assert (S0 : StronglySorted
                 (fun a b => m_start (fst a) <= m_start (fst b)
                             /\ In a (hits (src_of u))
                             /\ In b (hits (src_of u)))
                 (hits (src_of u))).
  { pose proof (hits_sorted (src_of u)) as S1.
    assert (G : forall l, StronglySorted
                  (fun a b => m_start (fst a) < m_start (fst b)) l ->
                forall P : span * text -> Prop, Forall P l ->
                StronglySorted
                  (fun a b => m_start (fst a) <= m_start (fst b)
                              /\ P a /\ P b) l).
    { induction 1 as [|a l _ IH F]; intros P HP; constructor.
      - apply IH. now inversion HP.
      - inversion HP as [|? ? Pa Pl]; subst.
        rewrite Forall_forall in *. intros b Hb.
        specialize (F b Hb). repeat split; [lia | exact Pa | auto]. }
    apply G; [exact S1|]. rewrite Forall_forall. auto. }
  eapply sorted_map; [|exact S0].
  intros a b (Hab & Ia & Ib).
  pose proof (hits_bounds (src_of u)) as B. rewrite Forall_forall in B.
  destruct (B a Ia) as [Ha1 Ha2]. destruct (B b Ib) as [Hb1 Hb2].
  destruct (finding_lines u a Ha1 Ha2) as (Ea & _ & _).
  destruct (finding_lines u b Hb1 Hb2) as (Eb & _ & _).
  rewrite Ea, Eb.
  pose proof (count_nl_firstn_mono (src_of u) _ _ Hab). lia.
Qed.

(** X6: the statements found in a text are non-empty pieces of it that do
    not overlap and come in textual order: each one ends no later than the
    next one starts. *)
Theorem X6_statements_disjoint (t : text) :
  Forall (fun m => m_start m < m_end m /\ m_end m <= length t)
         (finditer STMT_RE t)
  /\ StronglySorted (fun a b => m_end a <= m_start b) (finditer STMT_RE t).
Proof.
  split; [|apply finditer_from_disjoint].
  pose proof (finditer_from_bounds STMT_RE t 0 None 0) as B.
  pose proof (finditer_stmt_nonempty t 0 None 0) as N.
  fold (finditer STMT_RE t) in B, N.
  rewrite Forall_forall in *. intros m Hm.
  specialize (B m Hm). specialize (N m Hm). simpl in B. lia.
Qed.

(** X7: each statement found starts where an invocation keyword starts,
    holds exactly one terminator, which is its last character, and carries
    no group. *)
Theorem X7_statement_shape (t : text) :
  Forall (fun m =>
            exists pre w post,
              t = pre ++ w ++ dot :: post
              /\ m_start m = length pre
              /\ m_end m = length pre + S (length w)
              /\ Py.slice (m_start m) (m_end m) t = w ++ [dot]
              /\ count_dot w = 0
              /\ invoked (last_of None pre) (w ++ dot :: post) = true
              /\ m_group m = None)
         (finditer STMT_RE t).
Proof.
  rewrite Forall_forall. intros m Hm.
  apply finditer_from_in in Hm. destruct Hm as (pre & b & Et & _ & Hm).
  simpl in Hm.
  pose proof (stmt_match_needs _ _ _ _ Hm) as [Hi _].
  apply match_at_reaches in Hm. destruct Hm as (st' & R & ->).
  apply stmt_shape in R. destruct R as (w & s1 & Er & Fw & Ep & Eg & _).
  simpl in Er, Ep, Eg. subst b.
  exists pre, w, (rest st'). cbn [m_start m_end m_group].
  repeat split; try assumption.
  - rewrite Ep.
    replace (length pre + S (length w))
      with (length pre + length (w ++ [dot]))
      by (rewrite length_app; simpl; lia).
    rewrite Et.
    replace (pre ++ w ++ dot :: rest st')
      with (pre ++ (w ++ [dot]) ++ rest st')
      by (rewrite <- app_assoc; reflexivity).
    apply slice_app_mid.
  - now apply count_dot_none.
Qed.

(** X8: a unit never gets more findings than its code has statement
    terminators. *)
Theorem X8_findings_bounded_by_terminators (u : Unit) :
  exists fs,
    scan_findings u = Returned fs /\ length fs <= count_dot (src_of u).
Proof.
  eexists. split; [apply scan_findings_hits|].
  rewrite length_map. unfold hits.
  pose proof (hits_of_length (src_of u) (finditer STMT_RE (src_of u))).
  pose proof (finditer_from_count (src_of u) 0 None 0) as C.
  fold (finditer STMT_RE (src_of u)) in C. simpl in C. lia.
Qed.

(** X9: a call statement of a routine that is not on the list, placed as
    in C3, gives no finding: no flagged statement starts inside it. *)
Theorem X9_other_routine_not_flagged (u : Unit) (cs : call_stmt)
        (done gap post : text) :
  code u = Some (done ++ gap ++ render cs ++ post) ->
  well_formed cs = true ->
  ~ In (Py.upper (cs_name cs)) OBSOLETE_FMS ->
  terminated done ->
  no_invocation (last_of None done) gap (render cs ++ post) = true ->
  word_opt (last_of None (done ++ gap)) = false ->
  exists fs,
    scan_findings u = Returned fs
    /\ fs = map (finding_of u) (hits (src_of u))
    /\ filter (within (length (done ++ gap))
                      (length (done ++ gap) + length (render cs)))
              (hits (src_of u)) = [].
Proof.
  intros Hc Hwf Hout Hdone Hgap Hb.
  eexists. split; [apply scan_findings_hits|]. split; [reflexivity|].
  unfold src_of. rewrite Hc, or_text_value.
  destruct (occurrence_found cs done gap post Hwf Hdone Hgap Hb)
    as (L1 & L2 & E & F1 & F2).
  unfold hits. rewrite E, hits_of_app. simpl hits_of.
  fold (hits_of (done ++ gap ++ render cs ++ post) L2).
  assert (D : detect (done ++ gap ++ render cs ++ post)
                     {| m_start := length (done ++ gap);
                        m_end := length (done ++ gap) + length (render cs);
                        m_group := None |} = None).
  { replace (done ++ gap ++ render cs ++ post)
      with ((done ++ gap) ++ render cs ++ post)
      by now rewrite <- app_assoc.
    unfold detect. rewrite occurrence_name by assumption.
    destruct (Py.mem _ OBSOLETE_FMS) eqn:M; [|reflexivity].
    apply mem_In in M. contradiction. }
  rewrite D. simpl app. rewrite filter_app, !filter_none; [reflexivity| |].
  - apply (hits_of_starts
             (fun n => (length (done ++ gap) <=? n)
                       && (n <? length (done ++ gap) + length (render cs))
                       = false)).
    eapply Forall_impl; [|exact F2]. simpl. intros m Hm.
    apply andb_false_iff. right. apply Nat.ltb_ge. lia.
  - apply (hits_of_starts
             (fun n => (length (done ++ gap) <=? n)
                       && (n <? length (done ++ gap) + length (render cs))
                       = false)).
    eapply Forall_impl; [|exact F1]. simpl. intros m Hm.
    apply andb_false_iff. left. apply Nat.leb_gt. lia.
Qed.

Lemma X9_other_routine_not_flagged_witness :
  exists fs,
    scan_findings
      (example_unit 0
         (T "WRITE x." ++ [nl]
          ++ render {| cs_call := T "call"; cs_ws1 := T " ";
                       cs_function := T "function"; cs_ws2 := T " ";
                       cs_open := Some squote; cs_name := T "GUI_UPLOAD";
                       cs_close := Some squote; cs_tail := [] |}
          ++ T " CALL FUNCTION download."))
    = Returned fs
    /\ length fs = 1.
Proof.
  destruct (X9_other_routine_not_flagged
              (example_unit 0
                 (T "WRITE x." ++ [nl]
                  ++ render {| cs_call := T "call"; cs_ws1 := T " ";
                               cs_function := T "function";
                               cs_ws2 := T " ";
                               cs_open := Some squote;
                               cs_name := T "GUI_UPLOAD";
                               cs_close := Some squote; cs_tail := [] |}
                  ++ T " CALL FUNCTION download."))
              {| cs_call := T "call"; cs_ws1 := T " ";
                 cs_function := T "function"; cs_ws2 := T " ";
                 cs_open := Some squote; cs_name := T "GUI_UPLOAD";
                 cs_close := Some squote; cs_tail := [] |}
              (T "WRITE x.") [nl] (T " CALL FUNCTION download.")
              eq_refl eq_refl
              ltac:(simpl; intros [H|[H|[H|[H|[]]]]]; discriminate)
              (or_intror (ex_intro _ (T "WRITE x") eq_refl))
              eq_refl eq_refl)
    as (fs & E & _ & _).
  exists fs. split; [exact E|].
  vm_compute in E. injection E as <-. reflexivity.
Defined.

(** X10: for a span inside a text, [get_line_snippet] returns the text of
    the span with a piece free of newlines before it and another after
    it: the span is never cut, and nothing of another line is added. *)
Theorem X10_snippet_holds_span (t : text) (s e : nat) :
  s <= e -> e <= length t ->
  exists B A,
    get_line_snippet t s e = B ++ Py.slice s e t ++ A
    /\ Py.count_nl B = 0 /\ Py.count_nl A = 0.
Proof. apply get_line_snippet_around. Qed.

Lemma X10_snippet_holds_span_witness :
  exists B A,
    get_line_snippet (T "a" ++ [nl] ++ T "bcd" ++ [nl] ++ T "e") 3 4
    = B ++ T "c" ++ A
    /\ Py.count_nl B = 0 /\ Py.count_nl A = 0.
Proof.
  apply (X10_snippet_holds_span
           (T "a" ++ [nl] ++ T "bcd" ++ [nl] ++ T "e") 3 4);
    simpl; lia.
Defined.

(** X11: when the code of a unit has no newline, every finding starts on
    line [start_line + 1], ends on line [start_line + 2], and has the whole
    code as its snippet. *)
Theorem X11_one_line_unit (u : Unit) :
  Py.count_nl (src_of u) = 0 ->
  exists fs,
    scan_findings u = Returned fs
    /\ Forall (fun f =>
                 starting_line f = (start_line_value u + 1)%Z
                 /\ ending_line f = (start_line_value u + 2)%Z
                 /\ snippet f = src_of u) fs.
Proof.
  intros H. eexists. split; [apply scan_findings_hits|].
  rewrite Forall_map, Forall_forall. intros h _.
  unfold finding_of, make_finding, base_of, start_line_value.
  cbn [starting_line ending_line snippet].
  rewrite (get_line_snippet_one_line _ _ _ H), H, or_int_value.
  rewrite slice_from_0.
  pose proof (count_nl_firstn (src_of u) (m_start (fst h))) as L.
  replace (Py.count_nl (firstn (m_start (fst h)) (src_of u))) with 0 by lia.
  simpl Z.of_nat. repeat split; try lia.
  clear L. induction (src_of u) as [|c t IH]; simpl in *; [reflexivity|].
  destruct (Ascii.eqb c nl); [discriminate|]. simpl. now rewrite IH.
Qed.

Lemma X11_one_line_unit_witness :
  exists f,
    scan_findings (example_unit 7 (T "x = 1. CALL FUNCTION 'DOWNLOAD'."))
    = Returned [f]
    /\ starting_line f = 8%Z /\ ending_line f = 9%Z
    /\ snippet f = T "x = 1. CALL FUNCTION 'DOWNLOAD'.".
Proof.
  destruct (X11_one_line_unit
              (example_unit 7 (T "x = 1. CALL FUNCTION 'DOWNLOAD'."))
              eq_refl) as (fs & E & F).
  vm_compute in E. injection E as <-.
  eexists. split; [reflexivity|].
  inversion F as [|f l H _]; subst. exact H.
Defined.

(** X12: scan-batch works unit by unit: the result for two batches put
    end to end is the result for the first followed by the result for the
    second, and it never has more units than were given. *)
Theorem X12_batch_concatenates (a b : list Unit) :
  exists x y,
    scan_rule_array a = Returned x
    /\ scan_rule_array b = Returned y
    /\ scan_rule_array (a ++ b) = Returned (x ++ y)
    /\ length x <= length a /\ length y <= length b.
Proof.
  destruct (scan_rule_array_loop_acc a []) as (x & Ex & _ & Lx).
  destruct (scan_rule_array_loop_acc b x) as (y & Ey & Exy & Ly).
  exists x, y. unfold scan_rule_array.
  rewrite scan_rule_array_loop_app, Ex.
  repeat split; assumption.
Qed.

(** X13: scan-batch applied to its own output returns that output. *)
Theorem X13_batch_is_stable (units out : list Unit) :
  scan_rule_array units = Returned out ->
  scan_rule_array out = Returned out.
Proof.
  intros H. destruct (scan_rule_array_loop_filter units []) as (o & E & F).
  unfold scan_rule_array in H. rewrite H in E. injection E as ->.
  apply (scan_rule_array_loop_kept o).
  clear H. induction F as [|u r l l' [Hu Ht] _ IH]; constructor;
    [|exact IH].
  split; [eapply scan_unit_fixed, Hu | exact Ht].
Qed.

Lemma X13_batch_is_stable_witness :
  exists out,
    scan_rule_array [example_unit 0 (T "WRITE x."); scenario_unit]
    = Returned out
    /\ length out = 1
    /\ scan_rule_array out = Returned out.
Proof.
  destruct (scan_rule_array [example_unit 0 (T "WRITE x."); scenario_unit])
    as [out|e] eqn:E.
  - exists out. split; [reflexivity|]. split.
    + vm_compute in E. injection E as <-. reflexivity.
    + apply (X13_batch_is_stable _ out E).
  - vm_compute in E. discriminate.
Defined.
